(** * tvx extract: the message-vector extraction pipeline of [cmd/tvx/extract.go]

    A shallow embedding of [findMsgAndPrecursors], [fetchThisAndPrevTipset],
    [resolveFromChain] and [doExtract], with the chain API, the execution
    driver, the state surgeon and the operating system taken as an explicit
    environment, followed by the properties of the pipeline. *)

From stdpp Require Import base option list strings gmap pretty.
From Stdlib Require Import ZArith Lia.
From Stdlib.Strings Require Byte.

Local Open Scope string_scope.
Local Open Scope list_scope.

(** ** Data model *)

(** [cid.Cid] and [address.Address] are Go structs wrapping one string; [==]
    on them is string equality. *)
Definition Cid : Type := string.
Definition Address : Type := string.
Definition TipSetKey : Type := list Cid.
Definition bytes : Type := list Byte.byte.

(** [abi.ChainEpoch], exit codes and gas are [int64]. *)
Definition int64_min : Z := - 2 ^ 63.
Definition int64_max : Z := 2 ^ 63 - 1.
Definition wrap64 (z : Z) : Z := (z + 2 ^ 63) `mod` 2 ^ 64 - 2 ^ 63.
Definition add64 (a b : Z) : Z := wrap64 (a + b).

(** [types.Message]: the fields the data model of the pipeline names (sender,
    receiver, nonce, value, method, parameters) and the gas fields. *)
Record Message : Type := mkMessage {
  msg_To : Address;
  msg_From : Address;
  msg_Nonce : Z;
  msg_Value : Z;
  msg_GasLimit : Z;
  msg_Method : Z;
  msg_Params : bytes
}.

(** [api.Message]: a message of the canonical list, with the identity the
    chain lists it under. *)
Record ApiMessage : Type := mkApiMessage {
  am_Cid : Cid;
  am_Message : Message
}.

Definition PrecursorSelectAll : string := "all".
Definition PrecursorSelectSender : string := "sender".

(** ** The precursor selector *)

Section Selector.

(** The method [Cid] of [types.Message]: the content identifier of a
    message. *)
Variable Cid_of : Message -> Cid.

(** The body of the [for _, other := range msgs] loop of
    [findMsgAndPrecursors], with the slice [related] built so far. The
    [switch] has a [fallthrough] from the first case into the body of the
    second, so either case appends. *)
Fixpoint findMsgAndPrecursors_range (mode : string) (target : Message)
    (msgs : list ApiMessage) (related : list Message)
    : list Message * bool * option string :=
  match msgs with
  | [] => (related, false, None)
  | other :: rest =>
      let related :=
        if String.eqb mode PrecursorSelectAll then
          related ++ [am_Message other]
        else if String.eqb mode PrecursorSelectSender
                && String.eqb (msg_From (am_Message other)) (msg_From target) then
          related ++ [am_Message other]
        else related in
      if String.eqb (am_Cid other) (Cid_of target) then (related, true, None)
      else findMsgAndPrecursors_range mode target rest related
  end.

Definition findMsgAndPrecursors (mode : string) (target : Message)
    (msgs : list ApiMessage) : list Message * bool * option string :=
  findMsgAndPrecursors_range mode target msgs [].

(** The inclusion predicate of the [switch]: ['all'] takes every message,
    ['sender'] those of the sender of the target. *)
Definition included (mode : string) (target other : Message) : bool :=
  String.eqb mode PrecursorSelectAll
  || (String.eqb mode PrecursorSelectSender
      && String.eqb (msg_From other) (msg_From target)).

(** The messages of a list the inclusion predicate keeps, in order. *)
Definition kept (mode : string) (target : Message) (l : list ApiMessage)
    : list Message :=
  am_Message <$> filter (fun e => included mode target (am_Message e) = true) l.

(** A canonical list names no message twice. *)
Definition canonical (msgs : list ApiMessage) : Prop :=
  NoDup (am_Cid <$> msgs).

(** The target appears at position [k]: the entry there is listed under
    the identity of the target and carries the target. *)
Definition target_at (target : Message) (msgs : list ApiMessage) (k : nat) : Prop :=
  exists e, msgs !! k = Some e /\ am_Cid e = Cid_of target /\ am_Message e = target.

(** The identity of the target never appears in the list. *)
Definition target_absent (target : Message) (msgs : list ApiMessage) : Prop :=
  Forall (fun e => am_Cid e <> Cid_of target) msgs.


(** What the specification asks of ['sender']: the messages before
    position [k] sent by the sender of the target, in order, then the
    target. *)
Definition spec_SenderOnly (target : Message) (msgs : list ApiMessage) (k : nat)
    : list Message :=
  (am_Message <$> filter (fun e => msg_From (am_Message e) = msg_From target) (take k msgs))
  ++ [target].

(** What the specification asks of ['all']: every message up to and
    including position [k]. *)
Definition spec_All (msgs : list ApiMessage) (k : nat) : list Message :=
  am_Message <$> take (S k) msgs.

End Selector.

(** ** Results, chain data and the vector document *)

(** A Go result pair [(value, error)]. *)
Inductive Result (A : Type) : Type :=
| Ok (a : A)
| Err (e : string).
Arguments Ok {A} a.
Arguments Err {A} e.

(** How a call of the pipeline ends: it returns normally, it returns an
    error, or it panics at run time (an index or slice bound out of range). *)
Inductive Outcome (A : Type) : Type :=
| Done (a : A)
| Fail (e : string)
| Panic (p : string).
Arguments Done {A} a.
Arguments Fail {A} e.
Arguments Panic {A} p.

Definition EmptyTSK : TipSetKey := [].

Record BlockHeader : Type := mkBlockHeader {
  bh_Cid : Cid;
  bh_Height : Z;
  bh_ParentBaseFee : Z
}.

(** [types.TipSet], through the accessors the pipeline calls. *)
Record TipSet : Type := mkTipSet {
  ts_Key : TipSetKey;
  ts_Blocks : list BlockHeader;
  ts_Height : Z;
  ts_Parents : TipSetKey;
  ts_ParentState : Cid
}.

Record MsgLookup : Type := mkMsgLookup {
  ml_TipSet : TipSetKey;
  ml_Height : Z;
  ml_ExitCode : Z
}.

Record CirculatingSupply : Type := mkCirculatingSupply {
  FilCirculating : Z
}.

Record MessageReceipt : Type := mkMessageReceipt {
  rc_ExitCode : Z;
  rc_Return : bytes;
  rc_GasUsed : Z
}.

(** [vm.ApplyRet]: the receipt part of the result of a local execution. *)
Record ApplyRet : Type := mkApplyRet {
  ar_ExitCode : Z;
  ar_Return : bytes;
  ar_GasUsed : Z
}.

Record ExecuteMessageParams : Type := mkExecuteMessageParams {
  emp_Preroot : Cid;
  emp_Epoch : Z;
  emp_Message : Message;
  emp_CircSupply : Z;
  emp_BaseFee : Z
}.

(** The [schema] package of the test vector document. *)
Record Receipt : Type := mkReceipt {
  ExitCode : Z;
  ReturnValue : bytes;
  GasUsed : Z
}.

Record GenerationData : Type := mkGenerationData {
  Source : string;
  Version : string
}.

Record Metadata : Type := mkMetadata {
  ID : string;
  Gen : list GenerationData
}.

Record Preconditions : Type := mkPreconditions {
  pre_Epoch : Z;
  pre_CircSupply : Z;
  pre_BaseFee : Z;
  pre_StateTree : Cid
}.

Record Postconditions : Type := mkPostconditions {
  post_StateTree : Cid;
  post_Receipts : list Receipt
}.

Record TestVector : Type := mkTestVector {
  Class : string;
  Meta : Metadata;
  CAR : bytes;
  Pre : Preconditions;
  ApplyMessages : list bytes;
  Post : Postconditions
}.

Definition ClassMessage : string := "message".

Record extractOpts : Type := mkExtractOpts {
  opt_id : string;
  opt_block : string;
  opt_class : string;
  opt_cid : string;
  opt_file : string;
  opt_retain : string;
  opt_precursor : string
}.

(** Where the encoder writes: [os.Stdout] or the file created for [--out]. *)
Inductive Dest : Type :=
| Stdout
| File (path : string).

(** What [carWriter] captures: the archive is written later, from the
    closure, by [WriteCARIncluding] or by [WriteCAR]. *)
Inductive CarWriter : Type :=
| CarIncluding (accessed : gset string) (preroot postroot : Cid)
| CarAll (preroot postroot : Cid).

(** The calls the pipeline makes on its collaborators and the lines it logs,
    in the order they happen. A call on the store records its result, which
    depends on the store at that moment. *)
Inductive Event : Type :=
| EvLog (line : string)
| EvChainGetMessage (mcid : Cid)
| EvStateSearchMsg (mcid : Cid)
| EvChainGetBlock (bcid : Cid)
| EvChainGetTipSetByHeight (h : Z) (from : TipSetKey)
| EvChainGetTipSet (tsk : TipSetKey)
| EvStateCirculatingSupply (tsk : TipSetKey)
| EvChainGetParentMessages (bcid : Cid)
| EvStateGetReceipt (mcid : Cid) (tsk : TipSetKey)
| EvVersion
| EvStateNetworkName
| EvExecuteMessage (p : ExecuteMessageParams) (r : Result (ApplyRet * Cid))
| EvStartTracing
| EvFinishTracing
| EvGetAccessedActors (mcid : Cid) (r : Result (list Address))
| EvGetMaskedStateTree (root : Cid) (retain : list Address) (r : Result Cid)
| EvWriteCAR (cw : CarWriter)
| EvMkdirAll (dir : string)
| EvCreate (file : string)
| EvEncode (d : Dest) (v : TestVector).

(** ** The environment of a run *)

(** The collaborators of the pipeline: the chain API of the node, the
    read-through store with its surgeon and the execution driver, and the
    encoders and the file system. A chain lookup answers from the chain
    state, which does not change during a run; a call on the store takes
    the store as it is and leaves it changed. Every lookup but
    [StateGetReceipt] is taken to answer a value whenever it answers no
    error. *)
Set Implicit Arguments.

Record Env (Store : Type) : Type := mkEnv {
  cid_Decode : string -> Result Cid;
  msg_Cid : Message -> Cid;
  msg_Serialize : Message -> Result bytes;
  cid_String : Cid -> string;
  tsk_String : TipSetKey -> string;
  ChainGetMessage : Cid -> Result Message;
  StateSearchMsg : Cid -> Result MsgLookup;
  ChainGetBlock : Cid -> Result BlockHeader;
  ChainGetTipSetByHeight : Z -> TipSetKey -> Result TipSet;
  ChainGetTipSet : TipSetKey -> Result TipSet;
  StateCirculatingSupply : TipSetKey -> Result CirculatingSupply;
  ChainGetParentMessages : Cid -> Result (list ApiMessage);
  StateGetReceipt : Cid -> TipSetKey -> Result (option MessageReceipt);
  api_Version : Result string;
  StateNetworkName : Result string;
  NewProxyingStores : Store;
  as_TracingBlockstore : Store -> bool;
  StartTracing : Store -> Store;
  FinishTracing : Store -> Store * gset string;
  ExecuteMessage : Store -> ExecuteMessageParams -> Store * Result (ApplyRet * Cid);
  GetAccessedActors : Store -> Cid -> Store * Result (list Address);
  GetMaskedStateTree : Store -> Cid -> list Address -> Store * Result Cid;
  WriteCARIncluding : Store -> gset string -> Cid -> Cid -> Result bytes;
  WriteCAR : Store -> Cid -> Cid -> Result bytes;
  reward_Address : Address;
  BurntFundsActorAddr : Address;
  init_Address : Address;
  gzip_Flush : bytes -> Result unit;
  gzip_Close : bytes -> Result unit;
  gzip_Bytes : bytes -> bytes;
  json_Encode : TestVector -> Result bytes;
  filepath_Dir : string -> string;
  os_MkdirAll : string -> Result unit;
  os_Create : string -> Result unit;
  os_Write : Dest -> bytes -> nat * option string
}.

(** What a run reads and changes: the store behind the driver, the trace of
    calls and log lines, the files and the standard output. *)
Record World (Store : Type) : Type := mkWorld {
  w_store : Store;
  w_trace : list Event;
  w_files : gmap string bytes;
  w_stdout : bytes
}.

Unset Implicit Arguments.

Section Pipeline.

Context {Store : Type}.
Variable env : Env Store.

Definition M (A : Type) : Type := World Store -> Outcome A * World Store.

Definition ret {A : Type} (a : A) : M A := fun w => (Done a, w).

Definition bind {A B : Type} (m : M A) (k : A -> M B) : M B :=
  fun w =>
    match m w with
    | (Done a, w') => k a w'
    | (Fail e, w') => (Fail e, w')
    | (Panic p, w') => (Panic p, w')
    end.

Definition fail {A : Type} (e : string) : M A := fun w => (Fail e, w).
Definition panic {A : Type} (p : string) : M A := fun w => (Panic p, w).

Definition add_event (ev : Event) (w : World Store) : World Store :=
  mkWorld (w_store w) (w_trace w ++ [ev]) (w_files w) (w_stdout w).

Definition set_store (s : Store) (w : World Store) : World Store :=
  mkWorld s (w_trace w) (w_files w) (w_stdout w).

Definition emit (ev : Event) : M unit := fun w => (Done tt, add_event ev w).

(** [log.Printf] and [log.Println]: a line is recorded by its format. *)
Definition logf (line : string) : M unit := emit (EvLog line).

Definition of_result {A : Type} (r : Result A) : Outcome A :=
  match r with
  | Ok a => Done a
  | Err e => Fail e
  end.

Definition liftR {A : Type} (r : Result A) : M A := fun w => (of_result r, w).

(** A chain lookup: the call is recorded, its answer returned. *)
Definition call {A : Type} (ev : Event) (r : Result A) : M A :=
  bind (emit ev) (fun _ => liftR r).

(** [if err != nil { return fmt.Errorf("<prefix>: %w", err) }]. *)
Definition wrapErr {A : Type} (prefix : string) (m : M A) : M A :=
  fun w =>
    match m w with
    | (Fail e, w') => (Fail (prefix +:+ e), w')
    | r => r
    end.

(** [l[0]]. *)
Definition index0 {A : Type} (l : list A) : M A :=
  match l with
  | x :: _ => ret x
  | [] => panic "index out of range [0] with length 0"
  end.

(** [l[:hi]] for [hi] no larger than [len(l)]. *)
Definition slice_to {A : Type} (l : list A) (hi : Z) : M (list A) :=
  if (0 <=? hi)%Z && (hi <=? Z.of_nat (length l))%Z then ret (take (Z.to_nat hi) l)
  else panic "slice bounds out of range".

(** A call on the store: [f] answers from the store, the store it leaves
    is kept and the call recorded with its answer. *)
Definition on_store {A : Type} (f : Store -> Store * A) (ev : A -> Event) : M A :=
  fun w =>
    let '(s, a) := f (w_store w) in
    (Done a, add_event (ev a) (set_store s w)).

Definition driver_ExecuteMessage (p : ExecuteMessageParams) : M (ApplyRet * Cid) :=
  bind (on_store (fun s => ExecuteMessage env s p) (EvExecuteMessage p)) liftR.


Notation "'let*' x ':=' m 'in' k" := (bind m (fun x => k))
  (at level 10, x pattern, m at level 100, k at level 200, only parsing).
Notation "m '>>' k" := (bind m (fun _ => k))
  (at level 100, k at level 200, right associativity, only parsing).

(** *** Chain resolver *)

Definition fetchThisAndPrevTipset (target : TipSetKey) : M (TipSet * TipSet) :=
  let* targetTs := call (EvChainGetTipSet target) (ChainGetTipSet env target) in
  let* prevTs := call (EvChainGetTipSet (ts_Parents targetTs))
                      (ChainGetTipSet env (ts_Parents targetTs)) in
  ret (targetTs, prevTs).

Definition resolveFromChain (mcid : Cid) (block : string)
    : M (Message * TipSet * TipSet) :=
  let* msg := call (EvChainGetMessage mcid) (ChainGetMessage env mcid) in
  logf "found message with CID %s: %+v" >>
  if String.eqb block "" then
    logf "locating message in blockchain" >>
    let* msgInfo := wrapErr "failed to locate message: "
                      (call (EvStateSearchMsg mcid) (StateSearchMsg env mcid)) in
    logf "located message at tipset %s (height: %d) with exit code: %s" >>
    let* (execTs, incTs) := fetchThisAndPrevTipset (ml_TipSet msgInfo) in
    ret (msg, execTs, incTs)
  else
    let* bcid := liftR (cid_Decode env block) in
    logf "message inclusion block CID was provided; scanning around it: %s" >>
    let* blk := wrapErr "failed to get block: "
                  (call (EvChainGetBlock bcid) (ChainGetBlock env bcid)) in
    let* execTs := wrapErr "failed to get message execution tipset: "
                     (call (EvChainGetTipSetByHeight (add64 (bh_Height blk) 1) EmptyTSK)
                           (ChainGetTipSetByHeight env (add64 (bh_Height blk) 1) EmptyTSK)) in
    let* incTs := wrapErr "failed to get message inclusion tipset: "
                    (call (EvChainGetTipSetByHeight (bh_Height blk) (ts_Key execTs))
                          (ChainGetTipSetByHeight env (bh_Height blk) (ts_Key execTs))) in
    ret (msg, execTs, incTs).

(** *** Resolution (lines 127 to 154 of [doExtract]) *)

Record Resolved : Type := mkResolved {
  rs_mcid : Cid;
  rs_msg : Message;
  rs_execTs : TipSet;
  rs_incTs : TipSet;
  rs_circSupplyDetail : CirculatingSupply;
  rs_msgs : list ApiMessage
}.

(** Lines 127 to 154: the message, its tipsets, the circulating supply and
    the messages of the execution tipset in canonical order. *)
Definition resolveStage (opts : extractOpts) : M Resolved :=
  let* mcid := liftR (cid_Decode env (opt_cid opts)) in
  let* (msg, execTs, incTs) :=
    wrapErr "failed to resolve message and tipsets from chain: "
      (resolveFromChain mcid (opt_block opts)) in
  let* circSupplyDetail :=
    wrapErr "failed while fetching circulating supply: "
      (call (EvStateCirculatingSupply (ts_Key incTs))
            (StateCirculatingSupply env (ts_Key incTs))) in
  logf "message was executed in tipset: %s" >>
  logf "message was included in tipset: %s" >>
  logf "circulating supply at inclusion tipset: %d" >>
  logf "finding precursor messages using mode: %s" >>
  let* b0 := index0 (ts_Blocks execTs) in
  let* msgs :=
    wrapErr "failed to fetch messages in canonical order from inclusion tipset: "
      (call (EvChainGetParentMessages (bh_Cid b0))
            (ChainGetParentMessages env (bh_Cid b0))) in
  ret (mkResolved mcid msg execTs incTs circSupplyDetail msgs).

(** *** Precursor selection (lines 156 to 174) *)

Definition selectStage (opts : extractOpts) (rs : Resolved) : M (list Message) :=
  let '(related, found, err) :=
    findMsgAndPrecursors (msg_Cid env) (opt_precursor opts) (rs_msg rs) (rs_msgs rs) in
  match err with
  | Some e => fail ("failed while finding message and precursors: " +:+ e)
  | None =>
      if negb found then
        fail ("message not found; precursors found: " +:+ pretty (length related))
      else
        let* precursors := slice_to related (Z.of_nat (length related) - 1) in
        logf "found message; precursors (count: %d): %v" >>
        ret precursors
  end.

(** *** Precursor replay (lines 176 to 207) *)

Record Replayed : Type := mkReplayed {
  rp_root : Cid;
  rp_basefee : Z
}.

Definition precursorParams (rs : Resolved) (basefee : Z) (root : Cid) (m : Message)
    : ExecuteMessageParams :=
  mkExecuteMessageParams root (ts_Height (rs_execTs rs)) m
    (FilCirculating (rs_circSupplyDetail rs)) basefee.

(** The loop [for i, m := range precursors], with the running [root]. *)
Fixpoint replayPrecursors (rs : Resolved) (basefee : Z)
    (precursors : list Message) (root : Cid) : M Cid :=
  match precursors with
  | [] => ret root
  | m :: rest =>
      logf "applying precursor %d, cid: %s" >>
      let* (_, root') :=
        wrapErr "failed to execute precursor message: "
          (driver_ExecuteMessage (precursorParams rs basefee root m)) in
      replayPrecursors rs basefee rest root'
  end.

Definition replayStage (rs : Resolved) (precursors : list Message) : M Replayed :=
  (fun w => (Done tt, set_store (NewProxyingStores env) w)) >>
  let root := ts_ParentState (rs_incTs rs) in
  logf "base state tree root CID: %s" >>
  let* b0 := index0 (ts_Blocks (rs_incTs rs)) in
  let basefee := bh_ParentBaseFee b0 in
  logf "basefee: %s" >>
  logf "number of precursors to apply: %d" >>
  let* root := replayPrecursors rs basefee precursors root in
  ret (mkReplayed root basefee).

(** *** Execution of the target under a retention strategy (lines 209 to 277) *)

Record Executed : Type := mkExecuted {
  ex_preroot : Cid;
  ex_postroot : Cid;
  ex_applyret : ApplyRet;
  ex_carWriter : CarWriter
}.

Definition protocolActors : list Address :=
  [reward_Address env; BurntFundsActorAddr env; init_Address env].

Definition executeTarget (opts : extractOpts) (rs : Resolved) (rp : Replayed)
    : M Executed :=
  let root := rp_root rp in
  let retention := opt_retain opts in
  logf "using state retention strategy: %s" >>
  let* ex :=
    if String.eqb retention "accessed-cids" then
      let* ok := (fun w => (Done (as_TracingBlockstore env (w_store w)), w)) in
      if negb ok then
        fail "requested 'accessed-cids' state retention, but no tracing blockstore was present"
      else
        on_store (fun s => (StartTracing env s, tt)) (fun _ => EvStartTracing) >>
        let preroot := root in
        let* (applyret, postroot) :=
          wrapErr "failed to execute message: "
            (driver_ExecuteMessage (precursorParams rs (rp_basefee rp) preroot (rs_msg rs))) in
        let* accessed := on_store (FinishTracing env) (fun _ => EvFinishTracing) in
        ret (mkExecuted preroot postroot applyret (CarIncluding accessed preroot postroot))
    else if String.eqb retention "accessed-actors" then
      logf "calculating accessed actors" >>
      let* retain :=
        wrapErr "failed to calculate accessed actors: "
          (bind (on_store (fun s => GetAccessedActors env s (rs_mcid rs))
                          (EvGetAccessedActors (rs_mcid rs))) liftR) in
      let retain := retain ++ protocolActors in
      logf "calculated accessed actors: %v" >>
      let* preroot :=
        bind (on_store (fun s => GetMaskedStateTree env s root retain)
                       (EvGetMaskedStateTree root retain)) liftR in
      let* (applyret, postroot) :=
        wrapErr "failed to execute message: "
          (driver_ExecuteMessage (precursorParams rs (rp_basefee rp) preroot (rs_msg rs))) in
      ret (mkExecuted preroot postroot applyret (CarAll preroot postroot))
    else
      fail ("unknown state retention option: " +:+ retention) in
  logf "message applied; preroot: %s, postroot: %s" >>
  ret ex.

(** *** Receipt check (lines 278 to 311) *)

(** [bytes.Equal]. *)
Fixpoint bytes_Equal (a b : bytes) : bool :=
  match a, b with
  | [], [] => true
  | x :: a', y :: b' => Byte.eqb x y && bytes_Equal a' b'
  | _, _ => false
  end.

(** Modelled from the spec: [conformance.AssertMsgResult] on a
    [conformance.LogReporter], which are not among the sources here. The
    exit code, the return value and the gas used of the expected receipt
    are compared with those of the local result, and the reporter is given
    one error for each that differs. *)
Definition AssertMsgResult (expected : Receipt) (actual : ApplyRet) : list string :=
  (if (ExitCode expected =? ar_ExitCode actual)%Z then []
   else ["exit code of msg as locally executed did not match"])
  ++ (if (GasUsed expected =? ar_GasUsed actual)%Z then []
      else ["gas used of msg as locally executed did not match"])
  ++ (if bytes_Equal (ReturnValue expected) (ar_Return actual) then []
      else ["return value of msg as locally executed did not match"]).

(** Modelled from the spec: [LogReporter.Failed], true once an error was
    reported. *)
Definition Failed (reported : list string) : bool :=
  match reported with
  | [] => false
  | _ :: _ => true
  end.

Definition localReceipt (applyret : ApplyRet) : Receipt :=
  mkReceipt (ar_ExitCode applyret) (ar_Return applyret) (ar_GasUsed applyret).

Definition verifyReceipt (rs : Resolved) (ex : Executed) : M Receipt :=
  logf "performing sanity check on receipt" >>
  let* rec :=
    wrapErr "failed to find receipt on chain: "
      (call (EvStateGetReceipt (rs_mcid rs) (ts_Key (rs_execTs rs)))
            (StateGetReceipt env (rs_mcid rs) (ts_Key (rs_execTs rs)))) in
  logf "found receipt: %+v" >>
  match rec with
  | Some rec =>
      let receipt := mkReceipt (rc_ExitCode rec) (rc_Return rec) (rc_GasUsed rec) in
      let reporter := AssertMsgResult receipt (ex_applyret ex) in
      if Failed reporter then
        logf "receipt sanity check failed; aborting" >>
        fail "vector generation aborted"
      else
        logf "receipt sanity check succeeded" >>
        ret receipt
  | None =>
      let receipt := localReceipt (ex_applyret ex) in
      logf "skipping receipts comparison; we got back a nil receipt from lotus" >>
      ret receipt
  end.

(** *** Assembly of the vector (lines 313 to 381) *)

(** The call of the [carWriter] closure on the gzip writer: the bytes of
    the archive, read from the store as it is then. *)
Definition runCarWriter (cw : CarWriter) : M bytes :=
  fun w =>
    (of_result
       match cw with
       | CarIncluding accessed preroot postroot =>
           WriteCARIncluding env (w_store w) accessed preroot postroot
       | CarAll preroot postroot => WriteCAR env (w_store w) preroot postroot
       end,
     add_event (EvWriteCAR cw) w).

Definition assembleVector (opts : extractOpts) (rs : Resolved) (rp : Replayed)
    (ex : Executed) : M TestVector :=
  logf "generating vector" >>
  let* msgBytes := liftR (msg_Serialize env (rs_msg rs)) in
  let* car := runCarWriter (ex_carWriter ex) in
  let* _ := liftR (gzip_Flush env car) in
  let* _ := liftR (gzip_Close env car) in
  let* version := call EvVersion (api_Version env) in
  let* ntwkName := call EvStateNetworkName (StateNetworkName env) in
  ret {|
    Class := ClassMessage;
    Meta := {|
      ID := opt_id opts;
      Gen := [
        mkGenerationData ("network:" +:+ ntwkName) "";
        mkGenerationData ("message:" +:+ cid_String env (msg_Cid env (rs_msg rs))) "";
        mkGenerationData ("inclusion_tipset:" +:+ tsk_String env (ts_Key (rs_incTs rs))) "";
        mkGenerationData ("execution_tipset:" +:+ tsk_String env (ts_Key (rs_execTs rs))) "";
        mkGenerationData "github.com/filecoin-project/lotus" version ]
    |};
    CAR := gzip_Bytes env car;
    Pre := {|
      pre_Epoch := ts_Height (rs_execTs rs);
      pre_CircSupply := FilCirculating (rs_circSupplyDetail rs);
      pre_BaseFee := rp_basefee rp;
      pre_StateTree := ex_preroot ex
    |};
    ApplyMessages := [msgBytes];
    Post := {|
      post_StateTree := ex_postroot ex;
      post_Receipts := [localReceipt (ex_applyret ex)]
    |}
  |}.

(** *** Serialization (lines 383 to 403) *)

Definition set_files (fs : gmap string bytes) (w : World Store) : World Store :=
  mkWorld (w_store w) (w_trace w) fs (w_stdout w).

Definition set_stdout (out : bytes) (w : World Store) : World Store :=
  mkWorld (w_store w) (w_trace w) (w_files w) out.

(** [os.Create]: the file is created, or truncated when it exists. *)
Definition os_Create_file (file : string) : M unit :=
  emit (EvCreate file) >>
  match os_Create env file with
  | Ok _ => fun w => (Done tt, set_files (<[file := []]> (w_files w)) w)
  | Err e => fail e
  end.

(** One [Write] on the destination: the bytes the destination accepted are
    appended to it; fewer than all of them is an error. *)
Definition dest_Write (d : Dest) (data : bytes) : M unit :=
  fun w =>
    let '(n, err) := os_Write env d data in
    let written := take n data in
    let w' :=
      match d with
      | Stdout => set_stdout (w_stdout w ++ written) w
      | File f => set_files (<[f := default [] (w_files w !! f) ++ written]> (w_files w)) w
      end in
    (match err with
     | Some e => Fail e
     | None => if Nat.ltb n (length data) then Fail "short write" else Done tt
     end, w').

(** [enc.Encode(&vector)]: the document is marshalled whole, then written
    to the destination. *)
Definition Encode (d : Dest) (vector : TestVector) : M unit :=
  emit (EvEncode d vector) >>
  let* doc := liftR (json_Encode env vector) in
  dest_Write d doc.

(** [defer]: the deferred call runs when the function returns, whatever it
    returns. *)
Definition defer {A : Type} (m : M A) (deferred : M unit) : M A :=
  fun w => let '(r, w') := m w in (r, snd (deferred w')).

Definition writeVector (opts : extractOpts) (vector : TestVector) : M unit :=
  let file := opt_file opts in
  if negb (String.eqb file "") then
    let dir := filepath_Dir env file in
    let* _ := wrapErr ("unable to create directory " +:+ dir +:+ ": ")
                (call (EvMkdirAll dir) (os_MkdirAll env dir)) in
    let* _ := os_Create_file file in
    defer (Encode (File file) vector) (logf "wrote test vector to file: %s")
  else
    Encode Stdout vector.

(** *** The pipeline *)

Definition doExtract (opts : extractOpts) : M unit :=
  let* rs := resolveStage opts in
  let* precursors := selectStage opts rs in
  let* rp := replayStage rs precursors in
  let* ex := executeTarget opts rs rp in
  let* _ := verifyReceipt rs ex in
  let* vector := assembleVector opts rs rp ex in
  writeVector opts vector.

(** *** The stages before a point of the pipeline *)

(** Everything up to the local execution of the target (lines 127 to 277). *)
Definition executionStages (opts : extractOpts) : M (Resolved * Replayed * Executed) :=
  let* rs := resolveStage opts in
  let* precursors := selectStage opts rs in
  let* rp := replayStage rs precursors in
  let* ex := executeTarget opts rs rp in
  ret (rs, rp, ex).

(** Everything before the destination is opened (lines 127 to 381). *)
Definition vectorStages (opts : extractOpts) : M TestVector :=
  let* (rs, rp, ex) := executionStages opts in
  let* _ := verifyReceipt rs ex in
  assembleVector opts rs rp ex.

(** *** What a run leaves behind *)

(** The destinations a vector can be written to. *)
Definition dest (w : World Store) : gmap string bytes * bytes :=
  (w_files w, w_stdout w).

(** An action leaves an observation of the world as it was. *)
Definition preserves {X A : Type} (f : World Store -> X) (m : M A) : Prop :=
  forall w r w', m w = (r, w') -> f w' = f w.

(** Executions by the driver and constructions of a masked tree. *)
Definition is_engine (ev : Event) : bool :=
  match ev with
  | EvExecuteMessage _ _ | EvGetMaskedStateTree _ _ _ => true
  | _ => false
  end.

(** Calls of the surgeon for the actor-masked strategy. *)
Definition is_masking (ev : Event) : bool :=
  match ev with
  | EvGetAccessedActors _ _ | EvGetMaskedStateTree _ _ _ => true
  | _ => false
  end.

(** Lookups on the chain API. *)
Definition is_lookup (ev : Event) : bool :=
  match ev with
  | EvChainGetMessage _ | EvStateSearchMsg _ | EvChainGetBlock _
  | EvChainGetTipSetByHeight _ _ | EvChainGetTipSet _
  | EvStateCirculatingSupply _ | EvChainGetParentMessages _
  | EvStateGetReceipt _ _ | EvVersion | EvStateNetworkName => true
  | _ => false
  end.

(** Log lines, lookups and the writing of the archive: events that change
    neither the store nor a file. *)
Definition is_quiet (ev : Event) : bool :=
  match ev with
  | EvLog _ | EvWriteCAR _ => true
  | _ => is_lookup ev
  end.

(** What the serialization stage records. *)
Definition is_serialization (ev : Event) : bool :=
  match ev with
  | EvLog _ | EvMkdirAll _ | EvCreate _ | EvEncode _ _ => true
  | _ => false
  end.

(** The executions of a replay that starts at [root]: each precursor is
    executed on the root the execution before it returned, and the first
    error ends the replay. *)
Inductive threaded (rs : Resolved) (basefee : Z)
    : Cid -> list Message -> list Event -> Outcome Cid -> Prop :=
| threaded_nil root :
    threaded rs basefee root [] [] (Done root)
| threaded_ok root m ms applyret root' evs r :
    threaded rs basefee root' ms evs r ->
    threaded rs basefee root (m :: ms)
      (EvExecuteMessage (precursorParams rs basefee root m) (Ok (applyret, root')) :: evs) r
| threaded_err root m ms e :
    threaded rs basefee root (m :: ms)
      [EvExecuteMessage (precursorParams rs basefee root m) (Err e)]
      (Fail ("failed to execute precursor message: " +:+ e)).

(** What the retention strategy does with the root it is handed: nothing
    (it fails first), the execution of the target on it, or the
    construction of the masked tree from it, then the execution of the
    target on the masked root. *)
Definition handed_to_strategy (rs : Resolved) (basefee : Z) (rootN : Cid)
    (evs : list Event) : Prop :=
  evs = []
  \/ (exists r, evs = [EvExecuteMessage (precursorParams rs basefee rootN (rs_msg rs)) r])
  \/ (exists retain e, evs = [EvGetMaskedStateTree rootN retain (Err e)])
  \/ (exists retain preroot r,
        evs = [EvGetMaskedStateTree rootN retain (Ok preroot);
               EvExecuteMessage (precursorParams rs basefee preroot (rs_msg rs)) r]).


(** The local result and the receipt of the chain differ in a field. *)
Definition receipt_differs (rec : MessageReceipt) (applyret : ApplyRet) : Prop :=
  rc_ExitCode rec <> ar_ExitCode applyret
  \/ rc_Return rec <> ar_Return applyret
  \/ rc_GasUsed rec <> ar_GasUsed applyret.

(** No partial output, as the specification words it: a run that fails
    leaves the destination as it was. *)
Definition no_partial_output (opts : extractOpts) (w : World Store) : Prop :=
  forall out w', doExtract opts w = (out, w') -> out <> Done tt -> dest w' = dest w.

End Pipeline.

(** ** Two nodes in the same chain state *)

(** Two environments answer alike: every collaborator gives the same answer
    to the same call, on the same store. *)
Record Env_agree {Store : Type} (e1 e2 : Env Store) : Prop := mkEnvAgree {
  agree_cid_Decode : forall a, cid_Decode e1 a = cid_Decode e2 a;
  agree_msg_Cid : forall a, msg_Cid e1 a = msg_Cid e2 a;
  agree_msg_Serialize : forall a, msg_Serialize e1 a = msg_Serialize e2 a;
  agree_cid_String : forall a, cid_String e1 a = cid_String e2 a;
  agree_tsk_String : forall a, tsk_String e1 a = tsk_String e2 a;
  agree_ChainGetMessage : forall a, ChainGetMessage e1 a = ChainGetMessage e2 a;
  agree_StateSearchMsg : forall a, StateSearchMsg e1 a = StateSearchMsg e2 a;
  agree_ChainGetBlock : forall a, ChainGetBlock e1 a = ChainGetBlock e2 a;
  agree_ChainGetTipSetByHeight : forall a b, ChainGetTipSetByHeight e1 a b = ChainGetTipSetByHeight e2 a b;
  agree_ChainGetTipSet : forall a, ChainGetTipSet e1 a = ChainGetTipSet e2 a;
  agree_StateCirculatingSupply : forall a, StateCirculatingSupply e1 a = StateCirculatingSupply e2 a;
  agree_ChainGetParentMessages : forall a, ChainGetParentMessages e1 a = ChainGetParentMessages e2 a;
  agree_StateGetReceipt : forall a b, StateGetReceipt e1 a b = StateGetReceipt e2 a b;
  agree_api_Version : api_Version e1 = api_Version e2;
  agree_StateNetworkName : StateNetworkName e1 = StateNetworkName e2;
  agree_NewProxyingStores : NewProxyingStores e1 = NewProxyingStores e2;
  agree_as_TracingBlockstore : forall a, as_TracingBlockstore e1 a = as_TracingBlockstore e2 a;
  agree_StartTracing : forall a, StartTracing e1 a = StartTracing e2 a;
  agree_FinishTracing : forall a, FinishTracing e1 a = FinishTracing e2 a;
  agree_ExecuteMessage : forall a b, ExecuteMessage e1 a b = ExecuteMessage e2 a b;
  agree_GetAccessedActors : forall a b, GetAccessedActors e1 a b = GetAccessedActors e2 a b;
  agree_GetMaskedStateTree : forall a b c, GetMaskedStateTree e1 a b c = GetMaskedStateTree e2 a b c;
  agree_WriteCARIncluding : forall a b c d, WriteCARIncluding e1 a b c d = WriteCARIncluding e2 a b c d;
  agree_WriteCAR : forall a b c, WriteCAR e1 a b c = WriteCAR e2 a b c;
  agree_reward_Address : reward_Address e1 = reward_Address e2;
  agree_BurntFundsActorAddr : BurntFundsActorAddr e1 = BurntFundsActorAddr e2;
  agree_init_Address : init_Address e1 = init_Address e2;
  agree_gzip_Flush : forall a, gzip_Flush e1 a = gzip_Flush e2 a;
  agree_gzip_Close : forall a, gzip_Close e1 a = gzip_Close e2 a;
  agree_gzip_Bytes : forall a, gzip_Bytes e1 a = gzip_Bytes e2 a;
  agree_json_Encode : forall a, json_Encode e1 a = json_Encode e2 a;
  agree_filepath_Dir : forall a, filepath_Dir e1 a = filepath_Dir e2 a;
  agree_os_MkdirAll : forall a, os_MkdirAll e1 a = os_MkdirAll e2 a;
  agree_os_Create : forall a, os_Create e1 a = os_Create e2 a;
  agree_os_Write : forall a b, os_Write e1 a b = os_Write e2 a b
}.

(** The document a run serializes, when it gets that far. *)
Definition serialized {Store : Type} (env : Env Store) (opts : extractOpts)
    (w : World Store) : option bytes :=
  match vectorStages env opts w with
  | (Done vector, _) =>
      match json_Encode env vector with
      | Ok doc => Some doc
      | Err _ => None
      end
  | _ => None
  end.

(** The destination of a run from [w] to [w'] holds the document: it was
    appended to the standard output, or it is the content of the file. *)
Definition holds_document {Store : Type} (opts : extractOpts) (w w' : World Store)
    (doc : bytes) : Prop :=
  if String.eqb (opt_file opts) "" then w_stdout w' = w_stdout w ++ doc
  else w_files w' !! opt_file opts = Some doc.

(** From worlds related by [R] an action has the same outcome, and when it
    returns normally it leaves worlds related by [R']. *)
Definition rel2 {Store A : Type} (R R' : World Store -> World Store -> Prop)
    (m : M A) : Prop :=
  forall w1 w2, R w1 w2 ->
    fst (m w1) = fst (m w2)
    /\ forall a, fst (m w1) = Done a -> R' (snd (m w1)) (snd (m w2)).

Definition any_worlds {Store : Type} (w1 w2 : World Store) : Prop := True.
Definition same_store {Store : Type} (w1 w2 : World Store) : Prop :=
  w_store w1 = w_store w2.

(** ** More observations of a run *)

(** The search of the chain for a message. *)
Definition is_search (ev : Event) : bool :=
  match ev with
  | EvStateSearchMsg _ => true
  | _ => false
  end.

(** The lookups around a hinted block. *)
Definition is_hinted (ev : Event) : bool :=
  match ev with
  | EvChainGetBlock _ | EvChainGetTipSetByHeight _ _ => true
  | _ => false
  end.

(** The executions by the driver. *)
Definition is_execution (ev : Event) : bool :=
  match ev with
  | EvExecuteMessage _ _ => true
  | _ => false
  end.

(** The message an execution event is about. *)
Definition executed_message (ev : Event) : option Message :=
  match ev with
  | EvExecuteMessage p _ => Some (emp_Message p)
  | _ => None
  end.

(** The options with another [--class]. *)
Definition with_class (class : string) (opts : extractOpts) : extractOpts :=
  mkExtractOpts (opt_id opts) (opt_block opts) class (opt_cid opts) (opt_file opts)
    (opt_retain opts) (opt_precursor opts).

(** ** A small chain to run the pipeline on *)

Module Demo.

Definition sender : Address := "f0100".
Definition stranger : Address := "f0200".

Definition message (from : Address) (nonce : Z) : Message :=
  mkMessage "f0999" from nonce 0 1000 0 [].

Definition msg0 : Message := message sender 0.
Definition msg1 : Message := message sender 1.
Definition msg2 : Message := message stranger 7.
Definition msg3 : Message := message sender 2.
Definition msg4 : Message := message stranger 8.

Definition Cid_of (m : Message) : Cid :=
  "bafy-" +:+ msg_From m +:+ "-" +:+ pretty (msg_Nonce m).

Definition entry (m : Message) : ApiMessage := mkApiMessage (Cid_of m) m.

(** Five messages in canonical order, the target [msg3] at position 3. *)
Definition msgs : list ApiMessage := entry <$> [msg0; msg1; msg2; msg3; msg4].

Definition blk10 : BlockHeader := mkBlockHeader "blk10" 10 100.
Definition blk11 : BlockHeader := mkBlockHeader "blk11" 11 100.
Definition incTs : TipSet := mkTipSet ["blk10"] [blk10] 10 ["blk9"] "root0".
Definition execTs : TipSet := mkTipSet ["blk11"] [blk11] 11 ["blk10"] "root10".

Definition applyret : ApplyRet := mkApplyRet 0 [] 42.
Definition goodReceipt : MessageReceipt := mkMessageReceipt 0 [] 42.
Definition otherReceipt : MessageReceipt := mkMessageReceipt 0 [] 43.

Definition write_all (d : Dest) (data : bytes) : nat * option string :=
  (length data, None).
Definition write_short (d : Dest) (data : bytes) : nat * option string :=
  (1, Some "no space left on device").

(** Two ways a node finds the tipset at a height. *)
Definition byHeight (h : Z) (from : TipSetKey) : Result TipSet :=
  if (h =? 11)%Z then Ok execTs
  else if (h =? 10)%Z then Ok incTs else Err "no tipset at this height".
Definition byHeight' (h : Z) (from : TipSetKey) : Result TipSet :=
  if (h =? 10)%Z then Ok incTs
  else if (h =? 11)%Z then Ok execTs else Err "no tipset at this height".

(** The store is the number of calls made on it. The node lists [listed]
    as the messages of the execution tipset, finds tipsets by
    [heights] and answers with [receipt] for the receipt of the target;
    the destination takes writes as [write] says. *)
Definition env (listed : list ApiMessage)
    (heights : Z -> TipSetKey -> Result TipSet)
    (receipt : Result (option MessageReceipt))
    (write : Dest -> bytes -> nat * option string) : Env nat := {|
  cid_Decode := fun s => if String.eqb s "" then Err "invalid cid" else Ok s;
  msg_Cid := Cid_of;
  msg_Serialize := fun m => Ok (String.list_byte_of_string (Cid_of m));
  cid_String := fun c => c;
  tsk_String := fun k => "{" +:+ String.concat "," k +:+ "}";
  ChainGetMessage := fun c =>
    if String.eqb c (Cid_of msg3) then Ok msg3 else Err "message not found";
  StateSearchMsg := fun _ => Ok (mkMsgLookup ["blk11"] 11 0);
  ChainGetBlock := fun c =>
    if String.eqb c "blk10" then Ok blk10 else Err "block not found";
  ChainGetTipSetByHeight := heights;
  ChainGetTipSet := fun k =>
    if bool_decide (k = ["blk11"]) then Ok execTs
    else if bool_decide (k = ["blk10"]) then Ok incTs else Err "tipset not found";
  StateCirculatingSupply := fun _ => Ok (mkCirculatingSupply 2000);
  ChainGetParentMessages := fun c =>
    if String.eqb c "blk11" then Ok listed else Err "block not found";
  StateGetReceipt := fun _ _ => receipt;
  api_Version := Ok "1.1.0";
  StateNetworkName := Ok "testnet";
  NewProxyingStores := 0;
  as_TracingBlockstore := fun _ => true;
  StartTracing := S;
  FinishTracing := fun s => (S s, {[ "blockA" ]});
  ExecuteMessage := fun s p =>
    (S s, Ok (applyret, emp_Preroot p +:+ "+" +:+ pretty (msg_Nonce (emp_Message p))));
  GetAccessedActors := fun s _ => (S s, Ok [sender; "f0999"]);
  GetMaskedStateTree := fun s root _ => (S s, Ok ("masked:" +:+ root));
  WriteCARIncluding := fun _ _ preroot postroot =>
    Ok (String.list_byte_of_string (preroot +:+ ">" +:+ postroot));
  WriteCAR := fun _ preroot postroot =>
    Ok (String.list_byte_of_string (preroot +:+ ">" +:+ postroot));
  reward_Address := "f02";
  BurntFundsActorAddr := "f099";
  init_Address := "f01";
  gzip_Flush := fun _ => Ok tt;
  gzip_Close := fun _ => Ok tt;
  gzip_Bytes := fun b => b;
  json_Encode := fun v => Ok (String.list_byte_of_string ("{id:" +:+ ID (Meta v) +:+ "}"));
  filepath_Dir := fun _ => "vectors";
  os_MkdirAll := fun _ => Ok tt;
  os_Create := fun _ => Ok tt;
  os_Write := write
|}.

Definition opts (block file retain precursor : string) : extractOpts :=
  mkExtractOpts "demo" block "message" (Cid_of msg3) file retain precursor.

(** A world with nothing written yet but an older vector in [old.json],
    and another one. *)
Definition world : World nat :=
  mkWorld 0 [] {[ "old.json" := String.list_byte_of_string "{id:old}" ]} [].
Definition world' : World nat :=
  mkWorld 7 [EvLog "an earlier run"] ∅ (String.list_byte_of_string "earlier output").

(** A node whose receipt agrees with the local result, one whose receipt
    differs in the gas used, one that has no receipt, one whose
    destination fails after a byte, and one that does not list the
    target. *)
Definition node : Env nat := env msgs byHeight (Ok (Some goodReceipt)) write_all.
Definition node' : Env nat := env msgs byHeight' (Ok (Some goodReceipt)) write_all.
Definition nodeOther : Env nat := env msgs byHeight (Ok (Some otherReceipt)) write_all.
Definition nodeNil : Env nat := env msgs byHeight (Ok None) write_all.
Definition nodeShort : Env nat := env msgs byHeight (Ok None) write_short.
Definition nodeAbsent : Env nat :=
  env [entry msg0; entry msg4] byHeight (Ok (Some goodReceipt)) write_all.

(** Options: the block hint, a file, the actor-masked strategy and the
    precursors of the sender. *)
Definition hinted : extractOpts := opts "blk10" "out.json" "accessed-actors" "sender".

(** Options with a selection mode the selector does not know, with a
    retention strategy the pipeline does not know, and for the standard
    output. *)
Definition everyMode : extractOpts := opts "blk10" "out.json" "accessed-actors" "every".
Definition noStrategy : extractOpts := opts "blk10" "out.json" "everything" "sender".
Definition toStdout : extractOpts := opts "" "" "accessed-cids" "sender".

(** A node whose encoder fails. *)
Definition nodeNoJSON : Env nat :=
  let e := nodeNil in
  mkEnv (cid_Decode e) (msg_Cid e) (msg_Serialize e) (cid_String e) (tsk_String e)
    (ChainGetMessage e) (StateSearchMsg e) (ChainGetBlock e) (ChainGetTipSetByHeight e)
    (ChainGetTipSet e) (StateCirculatingSupply e) (ChainGetParentMessages e)
    (StateGetReceipt e) (api_Version e) (StateNetworkName e) (NewProxyingStores e)
    (as_TracingBlockstore e) (StartTracing e) (FinishTracing e) (ExecuteMessage e)
    (GetAccessedActors e) (GetMaskedStateTree e) (WriteCARIncluding e) (WriteCAR e)
    (reward_Address e) (BurntFundsActorAddr e) (init_Address e) (gzip_Flush e)
    (gzip_Close e) (gzip_Bytes e) (fun _ => Err "json: unsupported value")
    (filepath_Dir e) (os_MkdirAll e) (os_Create e) (os_Write e).

(** What the stages of a run of [node] under [hinted] return. *)
Definition resolved : Resolved :=
  mkResolved (Cid_of msg3) msg3 execTs incTs (mkCirculatingSupply 2000) msgs.
Definition replayed : Replayed := mkReplayed "root0+0+1" 100.
Definition executed : Executed :=
  mkExecuted "masked:root0+0+1" "masked:root0+0+1+2" applyret
    (CarAll "masked:root0+0+1" "masked:root0+0+1+2").

End Demo.

(* THEOREMS *)

(** * Properties of the selector *)

Section SelectorFacts.

Variable Cid_of : Message -> Cid.

Lemma range_cons mode target other rest related :
  findMsgAndPrecursors_range Cid_of mode target (other :: rest) related =
  let related' :=
    if included mode target (am_Message other) then related ++ [am_Message other]
    else related in
  if String.eqb (am_Cid other) (Cid_of target) then (related', true, None)
  else findMsgAndPrecursors_range Cid_of mode target rest related'.
Proof.
  unfold included. simpl.
  destruct (String.eqb mode PrecursorSelectAll); simpl; [reflexivity|].
  destruct (String.eqb mode PrecursorSelectSender && _); reflexivity.
Qed.

Lemma kept_cons mode target other l related :
  (if included mode target (am_Message other) then related ++ [am_Message other]
   else related) ++ kept mode target l
  = related ++ kept mode target (other :: l).
Proof.
  unfold kept. rewrite filter_cons.
  destruct (included mode target (am_Message other)) eqn:Hin.
  - rewrite decide_True by done. rewrite fmap_cons, <- app_assoc. reflexivity.
  - rewrite decide_False by discriminate. reflexivity.
Qed.

(** The scan up to the first entry listed under the identity of the
    target. *)
Lemma range_first_occurrence mode target msgs : forall k e related,
  msgs !! k = Some e ->
  am_Cid e = Cid_of target ->
  (forall j e', j < k -> msgs !! j = Some e' -> am_Cid e' <> Cid_of target) ->
  findMsgAndPrecursors_range Cid_of mode target msgs related
  = (related ++ kept mode target (take (S k) msgs), true, None).
Proof.
  induction msgs as [|other rest IH]; intros k e related Hk He Hfirst.
  - destruct k; discriminate.
  - rewrite range_cons. cbv zeta. destruct k as [|k].
    + injection Hk as ->. rewrite He, String.eqb_refl.
      change (take 1 (e :: rest)) with [e].
      rewrite <- kept_cons. unfold kept. rewrite filter_nil. simpl.
      rewrite app_nil_r. reflexivity.
    + assert (Hne : am_Cid other <> Cid_of target)
        by (apply (Hfirst 0); [lia | reflexivity]).
      apply String.eqb_neq in Hne. rewrite Hne.
      rewrite (IH k e); [| exact Hk | exact He |].
      * rewrite kept_cons. reflexivity.
      * intros j e' Hj Hl. apply (Hfirst (S j)); [lia | exact Hl].
      
Qed.

(** The scan of a list the identity of the target is absent from. *)
Lemma range_absent mode target msgs : forall related,
  target_absent Cid_of target msgs ->
  findMsgAndPrecursors_range Cid_of mode target msgs related
  = (related ++ kept mode target msgs, false, None).
Proof.
  induction msgs as [|other rest IH]; intros related Habs.
  - unfold kept. simpl. rewrite app_nil_r. reflexivity.
  - rewrite range_cons. cbv zeta.
    apply Forall_cons in Habs as [Hne Habs].
    apply String.eqb_neq in Hne. rewrite Hne.
    rewrite IH by exact Habs. rewrite kept_cons. reflexivity.
Qed.

(** Either the identity of the target is absent, or it has a first
    position. *)
Lemma absent_or_first_occurrence target msgs :
  target_absent Cid_of target msgs
  \/ exists k e, msgs !! k = Some e /\ am_Cid e = Cid_of target
       /\ forall j e', j < k -> msgs !! j = Some e' -> am_Cid e' <> Cid_of target.
Proof.
  induction msgs as [|other rest IH].
  - left. constructor.
  - destruct (decide (am_Cid other = Cid_of target)) as [Heq|Hne].
    + right. exists 0, other. repeat split; [exact Heq|]. intros j e' Hj. lia.
    + destruct IH as [Habs|(k & e & Hk & He & Hfirst)].
      * left. constructor; assumption.
      * right. exists (S k), e. repeat split; [exact Hk | exact He |].
        intros [|j] e' Hj Hl; [injection Hl as <-; exact Hne|].
        apply (Hfirst j); [lia | exact Hl].
Qed.

(** In a canonical list the position of the target is the first one
    listed under its identity. *)
Lemma canonical_first_occurrence target msgs k e :
  canonical msgs ->
  msgs !! k = Some e ->
  am_Cid e = Cid_of target ->
  forall j e', j < k -> msgs !! j = Some e' -> am_Cid e' <> Cid_of target.
Proof.
  intros Hcan Hk He j e' Hj Hl Heq.
  assert (j = k); [|lia].
  eapply (NoDup_lookup _ j k (Cid_of target) Hcan);
    rewrite list_lookup_fmap; [rewrite Hl | rewrite Hk]; simpl; congruence.
Qed.

Lemma included_all target other : included PrecursorSelectAll target other = true.
Proof. reflexivity. Qed.

Lemma included_sender target other :
  included PrecursorSelectSender target other = true
  <-> msg_From other = msg_From target.
Proof. unfold included. simpl. apply String.eqb_eq. Qed.

Lemma kept_all target l : kept PrecursorSelectAll target l = am_Message <$> l.
Proof.
  unfold kept. f_equal. induction l as [|x l IH]; [reflexivity|].
  rewrite filter_cons_True by apply included_all. f_equal. exact IH.
Qed.

Lemma kept_sender target l :
  kept PrecursorSelectSender target l
  = am_Message <$> filter (fun e => msg_From (am_Message e) = msg_From target) l.
Proof. unfold kept. f_equal. apply list_filter_iff. intros e. apply included_sender. Qed.

End SelectorFacts.

(** * Reasoning about runs *)

Section Frame.

Context {Store : Type}.
Context {X : Type} (f : World Store -> X).

Lemma preserves_ret {A} (a : A) : preserves f (ret a).
Proof. intros w r w' [= <- <-]. reflexivity. Qed.

Lemma preserves_fail {A} e : preserves f (@fail Store A e).
Proof. intros w r w' [= <- <-]. reflexivity. Qed.

Lemma preserves_panic {A} p : preserves f (@panic Store A p).
Proof. intros w r w' [= <- <-]. reflexivity. Qed.

Lemma preserves_liftR {A} (r : Result A) : preserves f (liftR r).
Proof. intros w r' w' [= <- <-]. reflexivity. Qed.

Lemma preserves_bind {A B} (m : M A) (k : A -> M B) :
  preserves f m -> (forall a, preserves f (k a)) -> preserves f (bind m k).
Proof.
  intros Hm Hk w r w'. unfold bind.
  destruct (m w) as [[a|e|p] w1] eqn:Hrun; intros Hr.
  - rewrite (Hk a _ _ _ Hr). exact (Hm _ _ _ Hrun).
  - injection Hr as <- <-. exact (Hm _ _ _ Hrun).
  - injection Hr as <- <-. exact (Hm _ _ _ Hrun).
Qed.

Lemma preserves_wrapErr {A} prefix (m : M A) :
  preserves f m -> preserves f (wrapErr prefix m).
Proof.
  intros Hm w r w'. unfold wrapErr.
  destruct (m w) as [[a|e|p] w1] eqn:Hrun; intros [= <- <-]; exact (Hm _ _ _ Hrun).
Qed.

Lemma preserves_emit ev :
  (forall w, f (add_event ev w) = f w) -> preserves f (emit ev).
Proof. intros Hev w r w' [= <- <-]. apply Hev. Qed.

Lemma preserves_call {A} ev (r : Result A) :
  (forall w, f (add_event ev w) = f w) -> preserves f (call ev r).
Proof.
  intros Hev. apply preserves_bind; [apply preserves_emit, Hev|].
  intros _. apply preserves_liftR.
Qed.

Lemma preserves_index0 {A} (l : list A) : preserves f (index0 l).
Proof. destruct l; [apply preserves_panic | apply preserves_ret]. Qed.

Lemma preserves_slice_to {A} (l : list A) hi : preserves f (slice_to l hi).
Proof.
  unfold slice_to. destruct (_ && _); [apply preserves_ret | apply preserves_panic].
Qed.

Lemma preserves_on_store {A} (g : Store -> Store * A) ev :
  (forall s a w, f (add_event (ev a) (set_store s w)) = f w) ->
  preserves f (on_store g ev).
Proof.
  intros Hev w r w'. unfold on_store.
  destruct (g (w_store w)) as [s a]. intros [= <- <-]. apply Hev.
Qed.

Lemma preserves_defer {A} (m : M A) (deferred : M unit) :
  preserves f m -> preserves f deferred -> preserves f (defer m deferred).
Proof.
  intros Hm Hd w r w'. unfold defer.
  destruct (m w) as [r1 w1] eqn:Hrun. destruct (deferred w1) as [r2 w2] eqn:Hdef.
  intros [= <- <-]. simpl. rewrite (Hd _ _ _ Hdef). exact (Hm _ _ _ Hrun).
Qed.

End Frame.

(** The destination and a selection of the trace, after an event or a change
    of the store. *)
Section Observations.

Context {Store : Type}.
Implicit Types (w : World Store) (P : Event -> bool).

Lemma dest_add_event ev w : dest (add_event ev w) = dest w.
Proof. reflexivity. Qed.

Lemma dest_set_store s w : dest (set_store s w) = dest w.
Proof. reflexivity. Qed.

Lemma events_add_event P ev w :
  List.filter P (w_trace (add_event ev w))
  = List.filter P (w_trace w) ++ (if P ev then [ev] else []).
Proof. simpl. rewrite List.filter_app. simpl. destruct (P ev); reflexivity. Qed.

Lemma events_add_other P ev w :
  P ev = false ->
  List.filter P (w_trace (add_event ev w)) = List.filter P (w_trace w).
Proof. intros H. rewrite events_add_event, H. apply app_nil_r. Qed.

Lemma events_set_store P s w :
  List.filter P (w_trace (set_store s w)) = List.filter P (w_trace w).
Proof. reflexivity. Qed.

Lemma events_set_files P fs w :
  List.filter P (w_trace (set_files fs w)) = List.filter P (w_trace w).
Proof. reflexivity. Qed.

Lemma events_set_stdout P out w :
  List.filter P (w_trace (set_stdout out w)) = List.filter P (w_trace w).
Proof. reflexivity. Qed.

End Observations.

Ltac frame_side :=
  intros; cbv beta;
  first [ reflexivity
        | apply events_add_other; reflexivity
        | match goal with H : forall ev w, is_quiet ev = true -> _ |- _ =>
            solve [ apply H; reflexivity
                  | rewrite H by reflexivity;
                    match goal with Hs : forall s w, _ = _ |- _ => apply Hs end ]
          end ].

Ltac frame :=
  repeat match goal with
  | |- preserves _ (bind _ _) => apply preserves_bind; [|intros]
  | |- preserves _ (wrapErr _ _) => apply preserves_wrapErr
  | |- preserves _ (ret _) => apply preserves_ret
  | |- preserves _ (fail _) => apply preserves_fail
  | |- preserves _ (panic _) => apply preserves_panic
  | |- preserves _ (liftR _) => apply preserves_liftR
  | |- preserves _ (logf _) => apply preserves_emit; try frame_side
  | |- preserves _ (emit _) => apply preserves_emit; try frame_side
  | |- preserves _ (call _ _) => apply preserves_call; try frame_side
  | |- preserves _ (index0 _) => apply preserves_index0
  | |- preserves _ (slice_to _ _) => apply preserves_slice_to
  | |- preserves _ (on_store _ _) => apply preserves_on_store; try frame_side
  | |- preserves _ (driver_ExecuteMessage _ _) => unfold driver_ExecuteMessage
  | |- preserves _ (defer _ _) => apply preserves_defer
  | |- preserves _ (if ?b then _ else _) => destruct b
  | |- preserves _ (match ?x with _ => _ end) => destruct x
  end.

(** Unfolds the actions of the monad in the goal. *)
Ltac run_unfold :=
  unfold driver_ExecuteMessage, call, logf;
  unfold bind, emit, wrapErr, on_store, liftR, ret, fail, panic;
  simpl.

(** Splits a run along the answers of the collaborators. *)
Ltac run_cases :=
  repeat case_match; simplify_eq/=;
  repeat match goal with
         | H : of_result ?r = _ |- _ => destruct r; simplify_eq/=
         end.

(** Stages that only log, look up and read. *)
Section QuietStages.

Context {Store : Type} (env : Env Store).
Context {X : Type} (f : World Store -> X).
Hypothesis f_quiet : forall ev w, is_quiet ev = true -> f (add_event ev w) = f w.
Hypothesis f_store : forall s w, f (set_store s w) = f w.

Lemma preserves_fetchThisAndPrevTipset target :
  preserves f (fetchThisAndPrevTipset env target).
Proof. unfold fetchThisAndPrevTipset. frame. Qed.

Lemma preserves_resolveFromChain mcid block :
  preserves f (resolveFromChain env mcid block).
Proof.
  unfold resolveFromChain. frame; apply preserves_fetchThisAndPrevTipset.
Qed.

Lemma preserves_resolveStage opts : preserves f (resolveStage env opts).
Proof. unfold resolveStage. frame. apply preserves_resolveFromChain. Qed.

Lemma preserves_selectStage opts rs : preserves f (selectStage env opts rs).
Proof. unfold selectStage. frame. Qed.

Lemma preserves_verifyReceipt rs ex : preserves f (verifyReceipt env rs ex).
Proof. unfold verifyReceipt. frame. Qed.

Lemma preserves_runCarWriter cw : preserves f (runCarWriter env cw).
Proof. intros w r w' [= <- <-]. apply f_quiet. reflexivity. Qed.

Lemma preserves_assembleVector opts rs rp ex :
  preserves f (assembleVector env opts rs rp ex).
Proof. unfold assembleVector. frame. apply preserves_runCarWriter. Qed.

End QuietStages.

Section Replay.

Context {Store : Type} (env : Env Store).

Lemma quiet_not_engine ev : is_quiet ev = true -> is_engine ev = false.
Proof. destruct ev; simpl; congruence. Qed.


Lemma events_quiet (P : Event -> bool) :
  (forall ev, is_quiet ev = true -> P ev = false) ->
  forall ev (w : World Store), is_quiet ev = true ->
  List.filter P (w_trace (add_event ev w)) = List.filter P (w_trace w).
Proof. intros HP ev w Hq. apply events_add_other, HP, Hq. Qed.

(** The loop executes the precursors one after the other on the running
    root; only the driver is called. *)
Lemma replayPrecursors_threaded rs basefee precursors : forall root w,
  exists evs r w',
    replayPrecursors env rs basefee precursors root w = (r, w')
    /\ threaded rs basefee root precursors evs r
    /\ List.filter is_engine (w_trace w') = List.filter is_engine (w_trace w) ++ evs
    /\ List.filter is_masking (w_trace w') = List.filter is_masking (w_trace w)
    /\ dest w' = dest w.
Proof.
  induction precursors as [|m rest IH]; intros root w.
  - exists [], (Done root), w. simpl. rewrite app_nil_r.
    repeat split. constructor.
  - simpl. run_unfold.
    destruct (ExecuteMessage env (w_store w) (precursorParams rs basefee root m))
      as [s [[applyret root']|e]] eqn:Hexec; simpl.
    + match goal with |- context [replayPrecursors env rs basefee rest root' ?w1] =>
        destruct (IH root' w1) as (evs & r & w' & Hrun & Hthr & Heng & Hmask & Hdest)
      end.
      exists (EvExecuteMessage (precursorParams rs basefee root m) (Ok (applyret, root')) :: evs),
        r, w'.
      split; [exact Hrun|]. split; [constructor; exact Hthr|].
      split; [|split].
      * rewrite Heng. simpl. rewrite !List.filter_app. simpl.
        rewrite app_nil_r, <- app_assoc. reflexivity.
      * rewrite Hmask. simpl. rewrite !List.filter_app. simpl.
        rewrite !app_nil_r. reflexivity.
      * rewrite Hdest. reflexivity.
    + eexists _, _, _. split; [reflexivity|]. split; [apply threaded_err|].
      simpl. rewrite !List.filter_app. simpl. rewrite !app_nil_r.
      repeat split.
Qed.

End Replay.

Section Stages.

Context {Store : Type} (env : Env Store).

Lemma replayStage_no_block rs precursors w :
  ts_Blocks (rs_incTs rs) = [] ->
  exists p w',
    replayStage env rs precursors w = (Panic p, w')
    /\ List.filter is_engine (w_trace w') = List.filter is_engine (w_trace w)
    /\ List.filter is_masking (w_trace w') = List.filter is_masking (w_trace w)
    /\ dest w' = dest w.
Proof.
  intros Hb. unfold replayStage. rewrite Hb. run_unfold.
  eexists _, _. split; [reflexivity|]. simpl.
  rewrite !List.filter_app. simpl. rewrite !app_nil_r. repeat split.
Qed.

Lemma replayStage_threaded rs precursors w b0 bs :
  ts_Blocks (rs_incTs rs) = b0 :: bs ->
  exists evs r w',
    threaded rs (bh_ParentBaseFee b0) (ts_ParentState (rs_incTs rs)) precursors evs r
    /\ replayStage env rs precursors w
       = (match r with
          | Done root => Done (mkReplayed root (bh_ParentBaseFee b0))
          | Fail e => Fail e
          | Panic p => Panic p
          end, w')
    /\ List.filter is_engine (w_trace w') = List.filter is_engine (w_trace w) ++ evs
    /\ List.filter is_masking (w_trace w') = List.filter is_masking (w_trace w)
    /\ dest w' = dest w.
Proof.
  intros Hb. unfold replayStage. rewrite Hb. run_unfold.
  match goal with |- context [replayPrecursors env rs ?bf precursors ?root ?w1] =>
    destruct (replayPrecursors_threaded env rs bf precursors root w1)
      as (evs & r & w' & Hrun & Hthr & Heng & Hmask & Hdest)
  end.
  exists evs, r, w'. split; [exact Hthr|]. rewrite Hrun.
  split; [destruct r; reflexivity|].
  rewrite Heng, Hmask, Hdest. simpl.
  rewrite !List.filter_app. simpl. rewrite !app_nil_r. repeat split.
Qed.

(** The strategy hands the root it is given to the driver, or to the
    surgeon for masking; it writes nothing. *)
Lemma executeTarget_engine opts rs rp w r w' :
  executeTarget env opts rs rp w = (r, w') ->
  exists evs,
    List.filter is_engine (w_trace w') = List.filter is_engine (w_trace w) ++ evs
    /\ handed_to_strategy rs (rp_basefee rp) (rp_root rp) evs
    /\ dest w' = dest w.
Proof.
  unfold executeTarget, handed_to_strategy. run_unfold. intros Hrun.
  run_cases;
    rewrite ?List.filter_app; simpl; rewrite <- ?app_assoc; simpl;
    eexists; (split; [reflexivity|]); split; try reflexivity; eauto 10.
Qed.

(** The serialization stage calls neither the driver nor the surgeon. *)
Lemma preserves_writeVector (P : Event -> bool) opts vector :
  (forall ev, is_serialization ev = true -> P ev = false) ->
  preserves (fun w => List.filter P (w_trace w)) (writeVector env opts vector).
Proof.
  intros HP.
  assert (Hw : forall d data,
    preserves (fun w : World Store => List.filter P (w_trace w)) (dest_Write env d data)).
  { intros d data w r w'. unfold dest_Write.
    destruct (os_Write env d data) as [n err]. intros [= <- <-].
    destruct d; reflexivity. }
  assert (He : forall d, preserves (fun w : World Store => List.filter P (w_trace w))
                           (Encode env d vector)).
  { intros d. unfold Encode. frame; [|apply Hw].
    intros w. apply events_add_other, HP. reflexivity. }
  unfold writeVector, os_Create_file. frame;
    try apply He; try (intros w; apply events_add_other, HP; reflexivity).
  intros w r w' [= <- <-]. reflexivity.
Qed.

(** Nor do the receipt check and the assembly of the vector. *)
Lemma preserves_after_execution (P : Event -> bool) opts rs rp ex :
  (forall ev, is_quiet ev = true -> P ev = false) ->
  (forall ev, is_serialization ev = true -> P ev = false) ->
  preserves (fun w => List.filter P (w_trace w))
    (bind (verifyReceipt env rs ex) (fun _ =>
     bind (assembleVector env opts rs rp ex) (writeVector env opts))).
Proof.
  intros Hq Hs. apply preserves_bind; [|intros _; apply preserves_bind].
  - apply preserves_verifyReceipt; first [apply events_quiet, Hq | reflexivity].
  - apply preserves_assembleVector; first [apply events_quiet, Hq | reflexivity].
  - intros vector. apply preserves_writeVector, Hs.
Qed.

Lemma serialization_not_engine ev : is_serialization ev = true -> is_engine ev = false.
Proof. destruct ev; simpl; congruence. Qed.


(** A run that has selected its precursors goes on with the replay. *)
Lemma doExtract_from_replay opts w rs w1 precursors w2 :
  resolveStage env opts w = (Done rs, w1) ->
  selectStage env opts rs w1 = (Done precursors, w2) ->
  doExtract env opts w
  = bind (replayStage env rs precursors) (fun rp =>
    bind (executeTarget env opts rs rp) (fun ex =>
    bind (verifyReceipt env rs ex) (fun _ =>
    bind (assembleVector env opts rs rp ex) (writeVector env opts)))) w2.
Proof. intros H1 H2. unfold doExtract, bind at 1 2. rewrite H1, H2. reflexivity. Qed.

Lemma threaded_no_panic rs basefee root ms evs r :
  threaded rs basefee root ms evs r -> forall p, r <> Panic p.
Proof. induction 1; intros p; [discriminate | apply IHthreaded | discriminate]. Qed.

End Stages.

(** * The selector *)

Section SelectorClaims.

Variable Cid_of : Message -> Cid.

Lemma kept_unknown_mode mode target l :
  mode <> PrecursorSelectAll -> mode <> PrecursorSelectSender ->
  kept mode target l = [].
Proof.
  intros Hall Hsender. unfold kept.
  induction l as [|x l IH]; [reflexivity|].
  rewrite filter_cons_False; [exact IH|].
  unfold included. apply String.eqb_neq in Hall, Hsender.
  rewrite Hall, Hsender. discriminate.
Qed.

(** The result of the selector, whatever the list. *)
Lemma findMsgAndPrecursors_cases mode target msgs :
  (target_absent Cid_of target msgs
   /\ findMsgAndPrecursors Cid_of mode target msgs = (kept mode target msgs, false, None))
  \/ (exists k e, msgs !! k = Some e /\ am_Cid e = Cid_of target
      /\ findMsgAndPrecursors Cid_of mode target msgs
         = (kept mode target (take (S k) msgs), true, None)).
Proof.
  unfold findMsgAndPrecursors.
  destruct (absent_or_first_occurrence Cid_of target msgs)
    as [Habs|(k & e & Hk & He & Hfirst)].
  - left. split; [exact Habs|]. rewrite range_absent by exact Habs. reflexivity.
  - right. exists k, e. split; [exact Hk|]. split; [exact He|].
    rewrite (range_first_occurrence Cid_of mode target msgs k e) by assumption.
    reflexivity.
Qed.

(** C1. Selector correctness: in a canonical list with the target at
    position [k], mode ['sender'] returns the messages before [k] sent by
    the sender of the target, in order, then the target, and mode ['all']
    returns every message up to and including position [k]; both with
    [found = true] and no error. *)
Theorem selector_correct target msgs k :
  canonical msgs ->
  target_at Cid_of target msgs k ->
  findMsgAndPrecursors Cid_of PrecursorSelectSender target msgs
  = (spec_SenderOnly target msgs k, true, None)
  /\ findMsgAndPrecursors Cid_of PrecursorSelectAll target msgs
     = (spec_All msgs k, true, None).
Proof.
  intros Hcan (e & Hk & He & Hmsg).
  pose proof (canonical_first_occurrence Cid_of target msgs k e Hcan Hk He) as Hfirst.
  unfold findMsgAndPrecursors.
  rewrite !(range_first_occurrence Cid_of _ target msgs k e) by assumption.
  simpl. split.
  - rewrite kept_sender, (take_S_r _ _ _ Hk), filter_app, fmap_app.
    unfold spec_SenderOnly. do 2 f_equal.
    rewrite filter_cons_True by (rewrite Hmsg; reflexivity).
    rewrite filter_nil. simpl. rewrite Hmsg. reflexivity.
  - rewrite kept_all. reflexivity.
Qed.

(** C10. The error of the selector is always [nil], whatever the mode,
    the target and the list; under a mode other than ['all'] and
    ['sender'] no message is kept. *)
Theorem selector_error_is_nil mode target msgs :
  exists related found,
    findMsgAndPrecursors Cid_of mode target msgs = (related, found, None)
    /\ (mode <> PrecursorSelectAll -> mode <> PrecursorSelectSender -> related = []).
Proof.
  destruct (findMsgAndPrecursors_cases mode target msgs)
    as [[_ Hrun]|(k & e & _ & _ & Hrun)]; rewrite Hrun;
    eexists _, _; (split; [reflexivity|]); apply kept_unknown_mode.
Qed.

End SelectorClaims.

(** * The pipeline *)

Section PipelineClaims.

Context {Store : Type} (env : Env Store).




(** C7. When the identity of the target never appears in the canonical
    list, the selector returns [found = false] with no more messages than
    the list has; and a run whose selector returns [found = false] ends
    with an error, nothing executed and nothing written. *)
Theorem absent_target_is_fatal :
  (forall Cid_of mode target msgs,
     target_absent Cid_of target msgs ->
     exists related,
       findMsgAndPrecursors Cid_of mode target msgs = (related, false, None)
       /\ length related <= length msgs)
  /\ (forall opts w rs w1 related err,
        resolveStage env opts w = (Done rs, w1) ->
        findMsgAndPrecursors (msg_Cid env) (opt_precursor opts) (rs_msg rs) (rs_msgs rs)
        = (related, false, err) ->
        doExtract env opts w
        = (Fail ("message not found; precursors found: " +:+ pretty (length related)), w1)
        /\ dest w1 = dest w
        /\ List.filter is_engine (w_trace w1) = List.filter is_engine (w_trace w)).
Proof.
  split.
  - intros Cid_of mode target msgs Habs.
    exists (kept mode target msgs). split.
    + unfold findMsgAndPrecursors. rewrite range_absent by exact Habs. reflexivity.
    + unfold kept. rewrite length_fmap. apply length_filter.
  - intros opts w rs w1 related err Hres Hrun.
    assert (err = None) as ->.
    { destruct (selector_error_is_nil (msg_Cid env) (opt_precursor opts)
                  (rs_msg rs) (rs_msgs rs)) as (r & f & H & _).
      congruence. }
    split; [|split].
    + unfold doExtract, bind at 1 2. rewrite Hres.
      unfold selectStage. rewrite Hrun. reflexivity.
    + eapply (preserves_resolveStage env dest); [reflexivity | exact Hres].
    + eapply (preserves_resolveStage env (fun w => List.filter is_engine (w_trace w)));
        [apply events_quiet, quiet_not_engine | exact Hres].
Qed.

(** C6. Precursor replay is sequential: from the parent state root of the
    inclusion tipset, each precursor is executed on the running root and
    the root it returns is the root of the next execution; the root after
    the last precursor is the one the retention strategy is handed, and
    the first execution error ends the run with that error, nothing
    executed after it. *)
Theorem replay_threads_roots opts w rs w1 precursors w2 b0 bs out wf :
  resolveStage env opts w = (Done rs, w1) ->
  selectStage env opts rs w1 = (Done precursors, w2) ->
  ts_Blocks (rs_incTs rs) = b0 :: bs ->
  doExtract env opts w = (out, wf) ->
  exists evs r,
    threaded rs (bh_ParentBaseFee b0) (ts_ParentState (rs_incTs rs)) precursors evs r
    /\ match r with
       | Done rootN =>
           exists rest,
             List.filter is_engine (w_trace wf)
             = List.filter is_engine (w_trace w) ++ evs ++ rest
             /\ handed_to_strategy rs (bh_ParentBaseFee b0) rootN rest
       | Fail e =>
           out = Fail e
           /\ List.filter is_engine (w_trace wf) = List.filter is_engine (w_trace w) ++ evs
       | Panic _ => False
       end.
Proof.
  intros Hres Hsel Hblocks Hrun.
  rewrite (doExtract_from_replay env opts w rs w1 precursors w2 Hres Hsel) in Hrun.
  assert (Heng2 : List.filter is_engine (w_trace w2) = List.filter is_engine (w_trace w)).
  { rewrite (preserves_selectStage env (fun w => List.filter is_engine (w_trace w))
               (events_quiet _ quiet_not_engine) _ _ _ _ _ Hsel).
    exact (preserves_resolveStage env (fun w => List.filter is_engine (w_trace w))
             (events_quiet _ quiet_not_engine) _ _ _ _ Hres). }
  destruct (replayStage_threaded env rs precursors w2 b0 bs Hblocks)
    as (evs & r & w3 & Hthr & Hreplay & Heng3 & _ & _).
  exists evs, r. split; [exact Hthr|].
  unfold bind at 1 in Hrun. rewrite Hreplay in Hrun.
  destruct r as [rootN|e|p].
  - unfold bind at 1 in Hrun.
    destruct (executeTarget env opts rs (mkReplayed rootN (bh_ParentBaseFee b0)) w3)
      as [rex w4] eqn:Hex.
    destruct (executeTarget_engine env _ _ _ _ _ _ Hex) as (rest & Heng4 & Hhanded & _).
    exists rest. split; [|exact Hhanded].
    rewrite <- Heng2, app_assoc, <- Heng3, <- Heng4.
    destruct rex as [ex|e|p]; [|injection Hrun as <- <-; reflexivity ..].
    exact (preserves_after_execution env is_engine opts rs _ ex
             quiet_not_engine serialization_not_engine _ _ _ Hrun).
  - injection Hrun as <- <-. split; [reflexivity|]. rewrite Heng3, Heng2. reflexivity.
  - exact (threaded_no_panic _ _ _ _ _ _ Hthr p eq_refl).
Qed.

Lemma resolveStage_mcid opts w rs w1 :
  resolveStage env opts w = (Done rs, w1) ->
  cid_Decode env (opt_cid opts) = Ok (rs_mcid rs).
Proof.
  unfold resolveStage. run_unfold. intros Hrun.
  destruct (cid_Decode env (opt_cid opts)) as [mcid|e]; [|discriminate].
  simpl in Hrun. run_cases. reflexivity.
Qed.



Lemma add64_succ h :
  (int64_min <= h < int64_max)%Z -> add64 h 1 = (h + 1)%Z.
Proof.
  unfold int64_min, int64_max, add64, wrap64. intros Hh.
  rewrite Z.mod_small by lia. lia.
Qed.

(** C5. With a block hint the resolver fetches the hinted block for its
    height [h], takes as execution tipset the tipset at height [h+1]
    looked up from the head, and as inclusion tipset the tipset at height
    [h] looked up from the execution tipset; without a hint it searches
    the chain for the message, takes the tipset found as execution tipset
    and the parent of that tipset as inclusion tipset. *)
Theorem resolver_lookups mcid w msg :
  ChainGetMessage env mcid = Ok msg ->
  (forall block bcid blk execTs incTs,
     block <> "" ->
     cid_Decode env block = Ok bcid ->
     ChainGetBlock env bcid = Ok blk ->
     (int64_min <= bh_Height blk < int64_max)%Z ->
     ChainGetTipSetByHeight env (bh_Height blk + 1) EmptyTSK = Ok execTs ->
     ChainGetTipSetByHeight env (bh_Height blk) (ts_Key execTs) = Ok incTs ->
     exists w',
       resolveFromChain env mcid block w = (Done (msg, execTs, incTs), w')
       /\ List.filter is_lookup (w_trace w')
          = List.filter is_lookup (w_trace w)
            ++ [EvChainGetMessage mcid;
                EvChainGetBlock bcid;
                EvChainGetTipSetByHeight (bh_Height blk + 1) EmptyTSK;
                EvChainGetTipSetByHeight (bh_Height blk) (ts_Key execTs)])
  /\ (forall msgInfo execTs incTs,
        StateSearchMsg env mcid = Ok msgInfo ->
        ChainGetTipSet env (ml_TipSet msgInfo) = Ok execTs ->
        ChainGetTipSet env (ts_Parents execTs) = Ok incTs ->
        exists w',
          resolveFromChain env mcid "" w = (Done (msg, execTs, incTs), w')
          /\ List.filter is_lookup (w_trace w')
             = List.filter is_lookup (w_trace w)
               ++ [EvChainGetMessage mcid;
                   EvStateSearchMsg mcid;
                   EvChainGetTipSet (ml_TipSet msgInfo);
                   EvChainGetTipSet (ts_Parents execTs)]).
Proof.
  intros Hmsg. split.
  - intros block bcid blk execTs incTs Hblock Hbcid Hblk Hh Hexec Hinc.
    unfold resolveFromChain. apply String.eqb_neq in Hblock.
    run_unfold. rewrite Hmsg. simpl. rewrite Hblock, Hbcid. simpl.
    rewrite Hblk. simpl. rewrite (add64_succ _ Hh), Hexec. simpl.
    rewrite Hinc. simpl. eexists. split; [reflexivity|]. simpl.
    rewrite !List.filter_app. simpl. rewrite <- !app_assoc. reflexivity.
  - intros msgInfo execTs incTs Hsearch Hexec Hinc.
    unfold resolveFromChain, fetchThisAndPrevTipset.
    run_unfold. rewrite Hmsg. simpl. rewrite Hsearch. simpl.
    rewrite Hexec. simpl. rewrite Hinc. simpl.
    eexists. split; [reflexivity|]. simpl.
    rewrite !List.filter_app. simpl. rewrite <- !app_assoc. reflexivity.
Qed.

Lemma bytes_Equal_eq a : forall b, bytes_Equal a b = true <-> a = b.
Proof.
  induction a as [|x a IH]; intros [|y b]; simpl; split; try congruence.
  - intros [Hx Hab]%andb_prop. apply Byte.byte_dec_bl in Hx. apply IH in Hab. congruence.
  - intros [= -> ->]. rewrite Byte.byte_dec_lb by reflexivity. simpl. apply IH. reflexivity.
Qed.

(** The check fails exactly when a field differs. *)
Lemma AssertMsgResult_differs rec applyret :
  Failed (AssertMsgResult
            (mkReceipt (rc_ExitCode rec) (rc_Return rec) (rc_GasUsed rec)) applyret) = true
  <-> receipt_differs rec applyret.
Proof.
  unfold AssertMsgResult, receipt_differs. simpl.
  assert (Hret : bytes_Equal (rc_Return rec) (ar_Return applyret) = true
                 \/ (bytes_Equal (rc_Return rec) (ar_Return applyret) = false
                     /\ rc_Return rec <> ar_Return applyret)).
  { destruct (bytes_Equal _ _) eqn:H; [left; reflexivity|right].
    split; [reflexivity|]. intros Heq%bytes_Equal_eq. congruence. }
  destruct (Z.eqb_spec (rc_ExitCode rec) (ar_ExitCode applyret));
    destruct (Z.eqb_spec (rc_GasUsed rec) (ar_GasUsed applyret));
    destruct Hret as [Hret|[Hret Hne]]; rewrite Hret; simpl;
    (split; [intros Hf | intros Hd]); try reflexivity; try discriminate Hf; try tauto.
  apply bytes_Equal_eq in Hret. tauto.
Qed.

Lemma preserves_dest_replayStage rs precursors : preserves dest (replayStage env rs precursors).
Proof.
  intros w r w' Hrun. destruct (ts_Blocks (rs_incTs rs)) as [|b0 bs] eqn:Hb.
  - destruct (replayStage_no_block env rs precursors w Hb) as (p & w1 & Hp & _ & _ & Hd).
    congruence.
  - destruct (replayStage_threaded env rs precursors w b0 bs Hb)
      as (evs & r0 & w1 & _ & Hp & _ & _ & Hd).
    congruence.
Qed.

Lemma preserves_dest_executeTarget opts rs rp : preserves dest (executeTarget env opts rs rp).
Proof.
  intros w r w' Hrun.
  destruct (executeTarget_engine env _ _ _ _ _ _ Hrun) as (evs & _ & _ & Hd). exact Hd.
Qed.

Lemma preserves_dest_executionStages opts : preserves dest (executionStages env opts).
Proof.
  unfold executionStages. frame.
  - apply preserves_resolveStage; reflexivity.
  - apply preserves_selectStage; reflexivity.
  - apply preserves_dest_replayStage.
  - apply preserves_dest_executeTarget.
Qed.

Lemma preserves_dest_vectorStages opts : preserves dest (vectorStages env opts).
Proof.
  unfold vectorStages. frame.
  - apply preserves_dest_executionStages.
  - apply preserves_verifyReceipt; reflexivity.
  - apply preserves_assembleVector; reflexivity.
Qed.

(** A run that has executed the target goes on with the receipt check. *)
Lemma doExtract_after_execution opts w rs rp ex w4 :
  executionStages env opts w = (Done (rs, rp, ex), w4) ->
  doExtract env opts w
  = bind (verifyReceipt env rs ex) (fun _ =>
    bind (assembleVector env opts rs rp ex) (writeVector env opts)) w4.
Proof.
  unfold executionStages, doExtract. unfold bind at 1 5.
  destruct (resolveStage env opts w) as [[rs'|e|p] w1]; [|discriminate ..].
  unfold bind at 1 4.
  destruct (selectStage env opts rs' w1) as [[precursors|e|p] w2]; [|discriminate ..].
  unfold bind at 1 3.
  destruct (replayStage env rs' precursors w2) as [[rp'|e|p] w3]; [|discriminate ..].
  unfold bind at 1 2.
  destruct (executeTarget env opts rs' rp' w3) as [[ex'|e|p] w4']; [|discriminate ..].
  intros [= -> -> -> ->]. reflexivity.
Qed.

(** A run is the stages that build the vector, then its serialization. *)
Lemma doExtract_vectorStages opts w :
  doExtract env opts w = bind (vectorStages env opts) (writeVector env opts) w.
Proof.
  unfold vectorStages, executionStages, doExtract, bind.
  destruct (resolveStage env opts w) as [[rs|e|p] w1]; [|reflexivity ..].
  destruct (selectStage env opts rs w1) as [[precursors|e|p] w2]; [|reflexivity ..].
  destruct (replayStage env rs precursors w2) as [[rp|e|p] w3]; [|reflexivity ..].
  destruct (executeTarget env opts rs rp w3) as [[ex|e|p] w4]; [|reflexivity ..].
  unfold ret.
  destruct (verifyReceipt env rs ex w4) as [[rc|e|p] w5]; [|reflexivity ..].
  destruct (assembleVector env opts rs rp ex w5) as [[v|e|p] w6]; reflexivity.
Qed.

(** C2. When the receipt of the chain and the local result differ in the
    exit code, the return value or the gas used, the run ends with an
    error and the destination is as it was; when the chain has no receipt
    (and no error), the comparison is skipped with a warning, the run goes
    on to assemble and write the vector, and the receipt among the
    postconditions of the vector is the local one. *)
Theorem receipt_gate opts w rs rp ex w4 :
  executionStages env opts w = (Done (rs, rp, ex), w4) ->
  (forall rec,
     StateGetReceipt env (rs_mcid rs) (ts_Key (rs_execTs rs)) = Ok (Some rec) ->
     receipt_differs rec (ex_applyret ex) ->
     exists wf,
       doExtract env opts w = (Fail "vector generation aborted", wf)
       /\ dest wf = dest w)
  /\ (StateGetReceipt env (rs_mcid rs) (ts_Key (rs_execTs rs)) = Ok None ->
      exists w5,
        verifyReceipt env rs ex w4 = (Done (localReceipt (ex_applyret ex)), w5)
        /\ last (w_trace w5)
           = Some (EvLog "skipping receipts comparison; we got back a nil receipt from lotus")
        /\ doExtract env opts w
           = bind (assembleVector env opts rs rp ex) (writeVector env opts) w5
        /\ forall vector w6,
             assembleVector env opts rs rp ex w5 = (Done vector, w6) ->
             post_Receipts (Post vector) = [localReceipt (ex_applyret ex)]).
Proof.
  intros Hexec.
  pose proof (preserves_dest_executionStages opts _ _ _ Hexec) as Hdest.
  rewrite (doExtract_after_execution _ _ _ _ _ _ Hexec).
  split.
  - intros rec Hrec Hdiff. apply AssertMsgResult_differs in Hdiff.
    unfold bind at 1. unfold verifyReceipt. run_unfold.
    rewrite Hrec. simpl. rewrite Hdiff. simpl.
    eexists. split; [reflexivity|]. exact Hdest.
  - intros Hrec. unfold bind at 1. unfold verifyReceipt. run_unfold.
    rewrite Hrec. simpl. eexists. split; [reflexivity|].
    split; [apply last_snoc|]. split; [reflexivity|].
    intros vector w6. unfold assembleVector. run_unfold. intros Hasm.
    run_cases; reflexivity.
Qed.

(** C3, as amended. No stage before the serialization touches the
    destination, so a run that fails in one of them leaves the files and
    the standard output as they were; and a run changes the destination
    only once the vector is assembled and, for a file, its directory and
    the file itself are created. *)
Theorem destination_written_last opts w :
  (forall r w6, vectorStages env opts w = (r, w6) -> dest w6 = dest w)
  /\ (forall out wf,
        doExtract env opts w = (out, wf) ->
        dest wf <> dest w ->
        exists vector w6,
          vectorStages env opts w = (Done vector, w6)
          /\ writeVector env opts vector w6 = (out, wf)
          /\ (opt_file opts = ""
              \/ (os_MkdirAll env (filepath_Dir env (opt_file opts)) = Ok tt
                  /\ os_Create env (opt_file opts) = Ok tt))).
Proof.
  split; [intros r w6; apply preserves_dest_vectorStages|].
  intros out wf Hrun Hchanged.
  rewrite doExtract_vectorStages in Hrun. unfold bind in Hrun.
  destruct (vectorStages env opts w) as [[vector|e|p] w6] eqn:Hvec;
    pose proof (preserves_dest_vectorStages opts _ _ _ Hvec) as Hd;
    [|injection Hrun as <- <-; contradiction ..].
  exists vector, w6. split; [reflexivity|]. split; [exact Hrun|].
  unfold writeVector in Hrun.
  destruct (String.eqb_spec (opt_file opts) "") as [Hfile|Hfile]; [left; exact Hfile|].
  right. simpl in Hrun. unfold os_Create_file in Hrun. revert Hrun. run_unfold.
  destruct (os_MkdirAll env (filepath_Dir env (opt_file opts))) as [[]|e]; simpl;
    [|intros [= <- <-]; contradiction].
  destruct (os_Create env (opt_file opts)) as [[]|e]; simpl;
    [|intros [= <- <-]; contradiction].
  intros _. split; reflexivity.
Qed.

End PipelineClaims.

(** * Runs on the small chain *)

(** C3, as the specification words it, fails: the vector is written to
    [out.json], the file is created, and the write stops after one byte
    with an error; the run fails and leaves that byte in the file. *)
Lemma failed_write_leaves_partial_file :
  ~ no_partial_output Demo.nodeShort Demo.hinted Demo.world.
Proof.
  intros H.
  specialize (H (Fail "no space left on device")
                (snd (doExtract Demo.nodeShort Demo.hinted Demo.world))).
  assert (Hd : dest (snd (doExtract Demo.nodeShort Demo.hinted Demo.world))
               = dest Demo.world).
  { apply H; [vm_compute; reflexivity | discriminate]. }
  apply (f_equal (fun d => fst d !! "out.json")) in Hd.
  vm_compute in Hd. discriminate Hd.
Qed.

(** * Determinism *)

(** Rewrites the answers of the first environment into those of the
    second. *)
Ltac rewrite_agree H :=
  repeat first
          [ rewrite (agree_cid_Decode _ _ H)
          | rewrite (agree_msg_Cid _ _ H)
          | rewrite (agree_msg_Serialize _ _ H)
          | rewrite (agree_cid_String _ _ H)
          | rewrite (agree_tsk_String _ _ H)
          | rewrite (agree_ChainGetMessage _ _ H)
          | rewrite (agree_StateSearchMsg _ _ H)
          | rewrite (agree_ChainGetBlock _ _ H)
          | rewrite (agree_ChainGetTipSetByHeight _ _ H)
          | rewrite (agree_ChainGetTipSet _ _ H)
          | rewrite (agree_StateCirculatingSupply _ _ H)
          | rewrite (agree_ChainGetParentMessages _ _ H)
          | rewrite (agree_StateGetReceipt _ _ H)
          | rewrite (agree_api_Version _ _ H)
          | rewrite (agree_StateNetworkName _ _ H)
          | rewrite (agree_NewProxyingStores _ _ H)
          | rewrite (agree_as_TracingBlockstore _ _ H)
          | rewrite (agree_StartTracing _ _ H)
          | rewrite (agree_FinishTracing _ _ H)
          | rewrite (agree_ExecuteMessage _ _ H)
          | rewrite (agree_GetAccessedActors _ _ H)
          | rewrite (agree_GetMaskedStateTree _ _ H)
          | rewrite (agree_WriteCARIncluding _ _ H)
          | rewrite (agree_WriteCAR _ _ H)
          | rewrite (agree_reward_Address _ _ H)
          | rewrite (agree_BurntFundsActorAddr _ _ H)
          | rewrite (agree_init_Address _ _ H)
          | rewrite (agree_gzip_Flush _ _ H)
          | rewrite (agree_gzip_Close _ _ H)
          | rewrite (agree_gzip_Bytes _ _ H)
          | rewrite (agree_json_Encode _ _ H)
          | rewrite (agree_filepath_Dir _ _ H)
          | rewrite (agree_os_MkdirAll _ _ H)
          | rewrite (agree_os_Create _ _ H)
          | rewrite (agree_os_Write _ _ H) ].

Section Agreement.

Context {Store : Type} (e1 e2 : Env Store).
Hypothesis Hagree : Env_agree e1 e2.

Lemma agree_bind {A B} (m1 m2 : M A) (k1 k2 : A -> M B) (w : World Store) :
  (forall w, m1 w = m2 w) -> (forall a w, k1 a w = k2 a w) ->
  bind m1 k1 w = bind m2 k2 w.
Proof.
  intros Hm Hk. unfold bind. rewrite Hm.
  destruct (m2 w) as [[a|e|p] w']; [apply Hk | reflexivity ..].
Qed.

Lemma agree_wrapErr {A} prefix (m1 m2 : M A) (w : World Store) :
  (forall w, m1 w = m2 w) -> wrapErr prefix m1 w = wrapErr prefix m2 w.
Proof. intros Hm. unfold wrapErr. rewrite Hm. reflexivity. Qed.

Lemma agree_defer {A} (m1 m2 : M A) (d : M unit) (w : World Store) :
  (forall w, m1 w = m2 w) -> defer m1 d w = defer m2 d w.
Proof. intros Hm. unfold defer. rewrite Hm. reflexivity. Qed.

Lemma agree_on_store {A} (g1 g2 : Store -> Store * A) ev (w : World Store) :
  (forall s, g1 s = g2 s) -> on_store g1 ev w = on_store g2 ev w.
Proof. intros Hg. unfold on_store. rewrite Hg. reflexivity. Qed.

Ltac agree :=
  repeat (cbv beta; rewrite_agree Hagree;
          match goal with
          | |- bind _ _ _ = bind _ _ _ => apply agree_bind; intros
          | |- wrapErr _ _ _ = wrapErr _ _ _ => apply agree_wrapErr; intros
          | |- defer _ _ _ = defer _ _ _ => apply agree_defer; intros
          | |- on_store _ _ _ = on_store _ _ _ => apply agree_on_store; intros
          | |- (if ?b then _ else _) _ = _ => destruct b
          | |- match ?x with _ => _ end _ = _ => destruct x
          | |- match ?x with _ => _ end = _ => destruct x
          end);
  cbv beta; rewrite_agree Hagree; try reflexivity.

Lemma agree_findMsgAndPrecursors mode target msgs :
  findMsgAndPrecursors (msg_Cid e1) mode target msgs
  = findMsgAndPrecursors (msg_Cid e2) mode target msgs.
Proof.
  unfold findMsgAndPrecursors. generalize (@nil Message).
  induction msgs as [|other rest IH]; intros related; [reflexivity|].
  simpl. rewrite (agree_msg_Cid _ _ Hagree), !IH. reflexivity.
Qed.

Lemma agree_resolveFromChain mcid block w :
  resolveFromChain e1 mcid block w = resolveFromChain e2 mcid block w.
Proof. unfold resolveFromChain, fetchThisAndPrevTipset, call. agree. Qed.

Lemma agree_resolveStage opts w : resolveStage e1 opts w = resolveStage e2 opts w.
Proof.
  unfold resolveStage, call. agree. apply agree_resolveFromChain.
Qed.

Lemma agree_selectStage opts rs w : selectStage e1 opts rs w = selectStage e2 opts rs w.
Proof. unfold selectStage. rewrite agree_findMsgAndPrecursors. reflexivity. Qed.

Lemma agree_driver p w : driver_ExecuteMessage e1 p w = driver_ExecuteMessage e2 p w.
Proof. unfold driver_ExecuteMessage. agree. Qed.

Lemma agree_replayPrecursors rs basefee precursors : forall root w,
  replayPrecursors e1 rs basefee precursors root w
  = replayPrecursors e2 rs basefee precursors root w.
Proof.
  induction precursors as [|m rest IH]; intros root w; [reflexivity|].
  simpl. agree; [apply agree_driver | apply IH].
Qed.

Lemma agree_replayStage rs precursors w :
  replayStage e1 rs precursors w = replayStage e2 rs precursors w.
Proof. unfold replayStage. agree. apply agree_replayPrecursors. Qed.

Lemma agree_executeTarget opts rs rp w :
  executeTarget e1 opts rs rp w = executeTarget e2 opts rs rp w.
Proof.
  unfold executeTarget, protocolActors. agree; apply agree_driver.
Qed.

Lemma agree_verifyReceipt rs ex w : verifyReceipt e1 rs ex w = verifyReceipt e2 rs ex w.
Proof. unfold verifyReceipt, call. agree. Qed.

Lemma agree_assembleVector opts rs rp ex w :
  assembleVector e1 opts rs rp ex w = assembleVector e2 opts rs rp ex w.
Proof.
  unfold assembleVector, call. agree.
  unfold runCarWriter. destruct (ex_carWriter ex); rewrite_agree Hagree; reflexivity.
Qed.

Lemma agree_writeVector opts vector w :
  writeVector e1 opts vector w = writeVector e2 opts vector w.
Proof.
  assert (He : forall d w, Encode e1 d vector w = Encode e2 d vector w).
  { intros d w'. unfold Encode. agree.
    unfold dest_Write. rewrite_agree Hagree. reflexivity. }
  unfold writeVector, os_Create_file, call. agree; apply He.
Qed.

Lemma agree_vectorStages opts w : vectorStages e1 opts w = vectorStages e2 opts w.
Proof.
  unfold vectorStages, executionStages. agree;
    first [ apply agree_resolveStage | apply agree_selectStage | apply agree_replayStage
          | apply agree_executeTarget | apply agree_verifyReceipt
          | apply agree_assembleVector ].
Qed.

Lemma agree_doExtract opts w : doExtract e1 opts w = doExtract e2 opts w.
Proof.
  rewrite !doExtract_vectorStages.
  apply agree_bind; [apply agree_vectorStages | intros; apply agree_writeVector].
Qed.

End Agreement.

(** Two runs of one environment, from worlds that may differ. *)
Section TwoRuns.

Context {Store : Type} (env : Env Store).
Implicit Types R : World Store -> World Store -> Prop.

Lemma rel2_ret {A} R (a : A) : rel2 R R (ret a).
Proof. intros w1 w2 HR. split; [reflexivity | intros _ _; exact HR]. Qed.

Lemma rel2_fail {A} R R' e : rel2 R R' (@fail Store A e).
Proof. intros w1 w2 HR. split; [reflexivity | discriminate]. Qed.

Lemma rel2_panic {A} R R' p : rel2 R R' (@panic Store A p).
Proof. intros w1 w2 HR. split; [reflexivity | discriminate]. Qed.

Lemma rel2_liftR {A} R (r : Result A) : rel2 R R (liftR r).
Proof. intros w1 w2 HR. split; [reflexivity | intros _ _; exact HR]. Qed.

Lemma rel2_bind {A B} R R' R'' (m : M A) (k : A -> M B) :
  rel2 R R' m -> (forall a, rel2 R' R'' (k a)) -> rel2 R R'' (bind m k).
Proof.
  intros Hm Hk w1 w2 HR. unfold bind.
  destruct (Hm w1 w2 HR) as [Hout HR'].
  destruct (m w1) as [o1 w1'], (m w2) as [o2 w2']. simpl in Hout, HR'. subst o2.
  destruct o1 as [a|e|p]; [| split; [reflexivity | discriminate] ..].
  apply Hk, (HR' a). reflexivity.
Qed.

Lemma rel2_weaken {A} R R' (m : M A) : rel2 R R' m -> rel2 R any_worlds m.
Proof.
  intros Hm w1 w2 HR. destruct (Hm w1 w2 HR) as [Hout _].
  split; [exact Hout | intros _ _; exact I].
Qed.

Lemma rel2_wrapErr {A} R R' prefix (m : M A) :
  rel2 R R' m -> rel2 R R' (wrapErr prefix m).
Proof.
  intros Hm w1 w2 HR. unfold wrapErr.
  destruct (Hm w1 w2 HR) as [Hout HR'].
  destruct (m w1) as [o1 w1'], (m w2) as [o2 w2']. simpl in Hout, HR'. subst o2.
  destruct o1 as [a|e|p]; (split; [reflexivity|]); try discriminate.
  exact HR'.
Qed.

Lemma rel2_emit R ev :
  (forall w1 w2, R w1 w2 -> R (add_event ev w1) (add_event ev w2)) ->
  rel2 R R (emit ev).
Proof. intros Hev w1 w2 HR. split; [reflexivity | intros _ _; apply Hev, HR]. Qed.

Lemma rel2_call {A} R ev (r : Result A) :
  (forall w1 w2, R w1 w2 -> R (add_event ev w1) (add_event ev w2)) ->
  rel2 R R (call ev r).
Proof.
  intros Hev. eapply rel2_bind; [apply rel2_emit, Hev | intros _; apply rel2_liftR].
Qed.

Lemma rel2_index0 {A} R (l : list A) : rel2 R R (index0 l).
Proof. destruct l; [apply rel2_panic | apply rel2_ret]. Qed.

Lemma rel2_slice_to {A} R (l : list A) hi : rel2 R R (slice_to l hi).
Proof. unfold slice_to. destruct (_ && _); [apply rel2_ret | apply rel2_panic]. Qed.

Lemma rel2_on_store {A} (g : Store -> Store * A) ev :
  rel2 same_store same_store (on_store g ev).
Proof.
  intros w1 w2 HR. unfold on_store. rewrite HR.
  destruct (g (w_store w2)) as [s a]. split; [reflexivity | intros _ _; reflexivity].
Qed.

Lemma rel2_defer {A} R R' (m : M A) (deferred : M unit) :
  rel2 R R' m -> rel2 R any_worlds (defer m deferred).
Proof.
  intros Hm w1 w2 HR. unfold defer. destruct (Hm w1 w2 HR) as [Hout _].
  destruct (m w1) as [o1 w1'], (m w2) as [o2 w2'].
  split; [exact Hout | intros _ _; exact I].
Qed.

Lemma rel2_pre_any {A} R R' (m : M A) : rel2 any_worlds R' m -> rel2 R R' m.
Proof. intros Hm w1 w2 _. apply Hm. exact I. Qed.

Lemma rel2_set_store R s :
  rel2 R same_store (fun w : World Store => (Done tt, set_store s w)).
Proof. intros w1 w2 _. split; [reflexivity | intros _ _; reflexivity]. Qed.

Lemma rel2_read_store {A} (h : Store -> A) :
  rel2 same_store same_store (fun w : World Store => (Done (h (w_store w)), w)).
Proof.
  intros w1 w2 HR. simpl. rewrite HR. split; [reflexivity | intros _ _; exact HR].
Qed.

Lemma rel2_runCarWriter cw : rel2 same_store same_store (runCarWriter env cw).
Proof.
  intros w1 w2 HR. unfold runCarWriter. simpl. rewrite HR.
  split; [reflexivity | intros _ _; exact HR].
Qed.

Ltac rel_side :=
  intros;
  match goal with
  | |- any_worlds _ _ => exact I
  | H : same_store _ _ |- same_store _ _ => exact H
  end.

Ltac rel :=
  repeat match goal with
  | |- rel2 _ _ (bind _ _) => eapply rel2_bind; [|intros]
  | |- rel2 _ _ (wrapErr _ _) => apply rel2_wrapErr
  | |- rel2 _ _ (ret _) => apply rel2_ret
  | |- rel2 _ _ (fail _) => apply rel2_fail
  | |- rel2 _ _ (panic _) => apply rel2_panic
  | |- rel2 _ _ (liftR _) => apply rel2_liftR
  | |- rel2 _ _ (logf _) => apply rel2_emit; rel_side
  | |- rel2 _ _ (emit _) => apply rel2_emit; rel_side
  | |- rel2 _ _ (call _ _) => apply rel2_call; rel_side
  | |- rel2 _ _ (index0 _) => apply rel2_index0
  | |- rel2 _ _ (slice_to _ _) => apply rel2_slice_to
  | |- rel2 _ _ (on_store _ _) => apply rel2_on_store
  | |- rel2 _ _ (driver_ExecuteMessage _ _) => unfold driver_ExecuteMessage
  | |- rel2 _ _ (runCarWriter _ _) => apply rel2_runCarWriter
  | |- rel2 _ _ (fun w => (Done _, w)) => apply rel2_read_store
  | |- rel2 _ _ (if ?b then _ else _) => destruct b
  | |- rel2 _ _ (match ?x with _ => _ end) => destruct x
  end.

(** The stages before the replay read nothing of the world. *)
Lemma rel2_resolveStage opts : rel2 any_worlds any_worlds (resolveStage env opts).
Proof. unfold resolveStage, resolveFromChain, fetchThisAndPrevTipset. rel. Qed.

Lemma rel2_selectStage opts rs : rel2 any_worlds any_worlds (selectStage env opts rs).
Proof. unfold selectStage. rel. Qed.

Lemma rel2_replayPrecursors rs basefee precursors : forall root,
  rel2 same_store same_store (replayPrecursors env rs basefee precursors root).
Proof.
  induction precursors as [|m rest IH]; intros root; simpl; rel. apply IH.
Qed.

(** The replay starts from a store of its own. *)
Lemma rel2_replayStage rs precursors :
  rel2 any_worlds same_store (replayStage env rs precursors).
Proof.
  unfold replayStage. eapply rel2_bind; [apply rel2_set_store|intros _].
  rel. apply rel2_replayPrecursors.
Qed.

Lemma rel2_executeTarget opts rs rp :
  rel2 same_store same_store (executeTarget env opts rs rp).
Proof.
  unfold executeTarget. rel.
Qed.

Lemma rel2_verifyReceipt rs ex : rel2 same_store same_store (verifyReceipt env rs ex).
Proof. unfold verifyReceipt. rel. Qed.

Lemma rel2_assembleVector opts rs rp ex :
  rel2 same_store same_store (assembleVector env opts rs rp ex).
Proof.
  unfold assembleVector. rel.
Qed.

Lemma rel2_vectorStages opts : rel2 any_worlds same_store (vectorStages env opts).
Proof.
  unfold vectorStages, executionStages. rel;
    first [ apply rel2_resolveStage | apply rel2_selectStage | apply rel2_replayStage
          | apply rel2_executeTarget | apply rel2_verifyReceipt
          | apply rel2_assembleVector ].
Qed.

(** The serialization reads nothing of the world either: what it returns
    is what the encoder and the destination answer. *)
Lemma rel2_os_Create_file file : rel2 any_worlds any_worlds (os_Create_file env file).
Proof.
  unfold os_Create_file.
  apply (rel2_bind any_worlds any_worlds any_worlds); [rel|intros _].
  destruct (os_Create env file); [|apply rel2_fail].
  intros w1 w2 _. split; [reflexivity | intros _ _; exact I].
Qed.

Lemma rel2_Encode d vector : rel2 any_worlds any_worlds (Encode env d vector).
Proof.
  unfold Encode.
  apply (rel2_bind any_worlds any_worlds any_worlds); [rel|intros _].
  apply (rel2_bind any_worlds any_worlds any_worlds); [rel|intros doc].
  intros w1 w2 _. unfold dest_Write. destruct (os_Write env d doc) as [n err].
  split; [reflexivity | intros _ _; exact I].
Qed.

Lemma rel2_writeVector R opts vector : rel2 R any_worlds (writeVector env opts vector).
Proof.
  apply rel2_pre_any. unfold writeVector.
  destruct (negb _); [|apply rel2_Encode].
  apply (rel2_bind any_worlds any_worlds any_worlds); [rel|intros _].
  apply (rel2_bind any_worlds any_worlds any_worlds);
    [apply rel2_os_Create_file|intros _].
  eapply rel2_defer, rel2_Encode.
Qed.

Lemma rel2_doExtract opts w1 w2 :
  fst (doExtract env opts w1) = fst (doExtract env opts w2).
Proof.
  rewrite !doExtract_vectorStages.
  apply (rel2_bind any_worlds same_store any_worlds); [apply rel2_vectorStages| |exact I].
  intros vector. apply rel2_writeVector.
Qed.

(** A run that succeeds leaves the document it serialized, whole, in its
    destination. *)
Lemma success_holds_document opts w wf :
  doExtract env opts w = (Done tt, wf) ->
  exists doc, serialized env opts w = Some doc /\ holds_document opts w wf doc.
Proof.
  rewrite doExtract_vectorStages. unfold bind, serialized, holds_document.
  destruct (vectorStages env opts w) as [[vector|e|p] w6] eqn:Hvec; [|discriminate ..].
  pose proof (preserves_dest_vectorStages env opts _ _ _ Hvec) as Hd.
  injection Hd as Hfiles Hstdout.
  unfold writeVector, os_Create_file, Encode, defer, dest_Write. run_unfold.
  destruct (String.eqb (opt_file opts) ""); simpl.
  - destruct (json_Encode env vector) as [doc|e]; simpl; [|discriminate].
    destruct (os_Write env Stdout doc) as [n [e|]]; [discriminate|].
    destruct (Nat.ltb_spec n (length doc)); [discriminate|].
    intros [= <-]. exists doc. split; [reflexivity|]. simpl.
    rewrite take_ge by lia. rewrite Hstdout. reflexivity.
  - destruct (os_MkdirAll env _) as [[]|e]; simpl; [|discriminate].
    destruct (os_Create env _) as [[]|e]; simpl; [|discriminate].
    destruct (json_Encode env vector) as [doc|e]; simpl; [|discriminate].
    destruct (os_Write env (File (opt_file opts)) doc) as [n [e|]]; [discriminate|].
    destruct (Nat.ltb_spec n (length doc)); [discriminate|].
    intros [= <-]. exists doc. split; [reflexivity|]. simpl.
    rewrite take_ge by lia. rewrite !lookup_insert_eq. reflexivity.
Qed.

End TwoRuns.

(** C8. Two runs on nodes in the same chain state, with the same options,
    end alike and serialize the same document, byte for byte, whatever the
    files, the standard output and the store they start from; when they
    succeed, that document is what each destination holds. *)
Theorem extraction_is_deterministic {Store : Type} (e1 e2 : Env Store) opts w1 w2 :
  Env_agree e1 e2 ->
  fst (doExtract e1 opts w1) = fst (doExtract e2 opts w2)
  /\ serialized e1 opts w1 = serialized e2 opts w2
  /\ (fst (doExtract e1 opts w1) = Done tt ->
      exists doc,
        serialized e1 opts w1 = Some doc
        /\ holds_document opts w1 (snd (doExtract e1 opts w1)) doc
        /\ holds_document opts w2 (snd (doExtract e2 opts w2)) doc).
Proof.
  intros Hagree.
  assert (Hout : fst (doExtract e1 opts w1) = fst (doExtract e2 opts w2)).
  { rewrite (agree_doExtract e1 e2 Hagree). apply rel2_doExtract. }
  assert (Hser : serialized e1 opts w1 = serialized e2 opts w2).
  { unfold serialized. rewrite (agree_vectorStages e1 e2 Hagree).
    destruct (rel2_vectorStages e2 opts w1 w2 I) as [Hvec _].
    destruct (vectorStages e2 opts w1) as [o1 w1'], (vectorStages e2 opts w2) as [o2 w2'].
    simpl in Hvec. subst o2. destruct o1 as [vector|e|p]; [|reflexivity ..].
    rewrite (agree_json_Encode _ _ Hagree). reflexivity. }
  split; [exact Hout|]. split; [exact Hser|].
  intros Hdone.
  destruct (doExtract e1 opts w1) as [o1 wf1] eqn:Hrun1.
  destruct (doExtract e2 opts w2) as [o2 wf2] eqn:Hrun2.
  simpl in Hout, Hdone. rewrite Hdone in Hout. subst o1 o2. simpl.
  destruct (success_holds_document e1 opts w1 wf1 Hrun1) as (doc & Hdoc & Hholds).
  destruct (success_holds_document e2 opts w2 wf2 Hrun2) as (doc' & Hdoc' & Hholds').
  exists doc. split; [exact Hdoc|]. split; [exact Hholds|].
  assert (doc' = doc) as <- by congruence. exact Hholds'.
Qed.

(** * The theorems on the small chain *)


Lemma demo_agree : Env_agree Demo.node Demo.node'.
Proof.
  constructor; try reflexivity.
  intros h from. simpl. unfold Demo.byHeight, Demo.byHeight'.
  destruct (Z.eqb_spec h 11) as [->|]; [reflexivity|].
  destruct (Z.eqb_spec h 10); reflexivity.
Defined.

(** The scenario of the specification: five messages, the target at
    position 3, positions 0 and 1 from its sender and position 2 not. *)
Lemma selector_correct_witness :
  findMsgAndPrecursors Demo.Cid_of PrecursorSelectSender Demo.msg3 Demo.msgs
  = ([Demo.msg0; Demo.msg1; Demo.msg3], true, None)
  /\ findMsgAndPrecursors Demo.Cid_of PrecursorSelectAll Demo.msg3 Demo.msgs
     = ([Demo.msg0; Demo.msg1; Demo.msg2; Demo.msg3], true, None).
Proof.
  apply (selector_correct Demo.Cid_of Demo.msg3 Demo.msgs 3).
  - unfold canonical. apply (bool_decide_unpack _). vm_compute. exact I.
  - exists (Demo.entry Demo.msg3). repeat split.
Defined.

Lemma selector_error_is_nil_witness :
  fst (fst (findMsgAndPrecursors Demo.Cid_of "every" Demo.msg3 Demo.msgs)) = [].
Proof.
  destruct (selector_error_is_nil Demo.Cid_of "every" Demo.msg3 Demo.msgs)
    as (related & found & Hrun & Hnil).
  rewrite Hrun. simpl. apply Hnil; discriminate.
Defined.


Lemma absent_target_is_fatal_witness :
  fst (doExtract Demo.nodeAbsent Demo.hinted Demo.world)
  = Fail "message not found; precursors found: 1".
Proof.
  destruct (absent_target_is_fatal Demo.nodeAbsent) as [_ Hfatal].
  destruct (Hfatal Demo.hinted Demo.world
              (mkResolved (Demo.Cid_of Demo.msg3) Demo.msg3 Demo.execTs Demo.incTs
                 (mkCirculatingSupply 2000) [Demo.entry Demo.msg0; Demo.entry Demo.msg4])
              (snd (resolveStage Demo.nodeAbsent Demo.hinted Demo.world))
              [Demo.msg0] None) as (Hrun & _).
  - vm_compute. reflexivity.
  - vm_compute. reflexivity.
  - rewrite Hrun. reflexivity.
Defined.

Lemma replay_threads_roots_witness :
  exists evs r,
    threaded Demo.resolved 100 "root0" [Demo.msg0; Demo.msg1] evs r
    /\ match r with
       | Done rootN =>
           exists rest,
             List.filter is_engine (w_trace (snd (doExtract Demo.node Demo.hinted Demo.world)))
             = List.filter is_engine (w_trace Demo.world) ++ evs ++ rest
             /\ handed_to_strategy Demo.resolved 100 rootN rest
       | Fail e =>
           fst (doExtract Demo.node Demo.hinted Demo.world) = Fail e
           /\ List.filter is_engine (w_trace (snd (doExtract Demo.node Demo.hinted Demo.world)))
              = List.filter is_engine (w_trace Demo.world) ++ evs
       | Panic _ => False
       end.
Proof.
  apply (replay_threads_roots Demo.node Demo.hinted Demo.world Demo.resolved
           (snd (resolveStage Demo.node Demo.hinted Demo.world))
           [Demo.msg0; Demo.msg1]
           (snd (selectStage Demo.node Demo.hinted Demo.resolved
                   (snd (resolveStage Demo.node Demo.hinted Demo.world))))
           Demo.blk10 []).
  - vm_compute. reflexivity.
  - vm_compute. reflexivity.
  - reflexivity.
  - apply surjective_pairing.
Defined.


Lemma resolver_lookups_witness :
  (exists w',
     resolveFromChain Demo.node (Demo.Cid_of Demo.msg3) "blk10" Demo.world
     = (Done (Demo.msg3, Demo.execTs, Demo.incTs), w')
     /\ List.filter is_lookup (w_trace w')
        = List.filter is_lookup (w_trace Demo.world)
          ++ [EvChainGetMessage (Demo.Cid_of Demo.msg3);
              EvChainGetBlock "blk10";
              EvChainGetTipSetByHeight (10 + 1) EmptyTSK;
              EvChainGetTipSetByHeight 10 ["blk11"]])
  /\ (exists w',
        resolveFromChain Demo.node (Demo.Cid_of Demo.msg3) "" Demo.world
        = (Done (Demo.msg3, Demo.execTs, Demo.incTs), w')
        /\ List.filter is_lookup (w_trace w')
           = List.filter is_lookup (w_trace Demo.world)
             ++ [EvChainGetMessage (Demo.Cid_of Demo.msg3);
                 EvStateSearchMsg (Demo.Cid_of Demo.msg3);
                 EvChainGetTipSet ["blk11"];
                 EvChainGetTipSet ["blk10"]]).
Proof.
  destruct (resolver_lookups Demo.node (Demo.Cid_of Demo.msg3) Demo.world Demo.msg3)
    as [Hhint Hsearch].
  - vm_compute. reflexivity.
  - split.
    + apply (Hhint "blk10" "blk10" Demo.blk10 Demo.execTs Demo.incTs).
      * discriminate.
      * reflexivity.
      * reflexivity.
      * unfold int64_min, int64_max. simpl. lia.
      * reflexivity.
      * reflexivity.
    + apply (Hsearch (mkMsgLookup ["blk11"] 11 0) Demo.execTs Demo.incTs); reflexivity.
Defined.

Lemma receipt_gate_witness :
  (exists wf,
     doExtract Demo.nodeOther Demo.hinted Demo.world = (Fail "vector generation aborted", wf)
     /\ dest wf = dest Demo.world)
  /\ (exists w5,
        verifyReceipt Demo.nodeNil Demo.resolved Demo.executed
          (snd (executionStages Demo.nodeNil Demo.hinted Demo.world))
        = (Done (localReceipt Demo.applyret), w5)
        /\ last (w_trace w5)
           = Some (EvLog "skipping receipts comparison; we got back a nil receipt from lotus")
        /\ doExtract Demo.nodeNil Demo.hinted Demo.world
           = bind (assembleVector Demo.nodeNil Demo.hinted Demo.resolved Demo.replayed
                     Demo.executed)
                  (writeVector Demo.nodeNil Demo.hinted) w5
        /\ forall vector w6,
             assembleVector Demo.nodeNil Demo.hinted Demo.resolved Demo.replayed
               Demo.executed w5 = (Done vector, w6) ->
             post_Receipts (Post vector) = [localReceipt Demo.applyret]).
Proof.
  split.
  - destruct (receipt_gate Demo.nodeOther Demo.hinted Demo.world Demo.resolved
                Demo.replayed Demo.executed
                (snd (executionStages Demo.nodeOther Demo.hinted Demo.world)))
      as [Hgate _].
    + vm_compute. reflexivity.
    + apply (Hgate Demo.otherReceipt); [reflexivity|].
      right; right. discriminate.
  - destruct (receipt_gate Demo.nodeNil Demo.hinted Demo.world Demo.resolved
                Demo.replayed Demo.executed
                (snd (executionStages Demo.nodeNil Demo.hinted Demo.world)))
      as [_ Hnil].
    + vm_compute. reflexivity.
    + apply Hnil. reflexivity.
Defined.

Lemma destination_written_last_witness :
  exists vector w6,
    vectorStages Demo.nodeShort Demo.hinted Demo.world = (Done vector, w6)
    /\ writeVector Demo.nodeShort Demo.hinted vector w6
       = doExtract Demo.nodeShort Demo.hinted Demo.world
    /\ (opt_file Demo.hinted = ""
        \/ (os_MkdirAll Demo.nodeShort (filepath_Dir Demo.nodeShort (opt_file Demo.hinted))
            = Ok tt
            /\ os_Create Demo.nodeShort (opt_file Demo.hinted) = Ok tt)).
Proof.
  destruct (destination_written_last Demo.nodeShort Demo.hinted Demo.world) as [_ Hlast].
  destruct (Hlast (fst (doExtract Demo.nodeShort Demo.hinted Demo.world))
              (snd (doExtract Demo.nodeShort Demo.hinted Demo.world)))
    as (vector & w6 & Hvec & Hwrite & Hopen).
  - apply surjective_pairing.
  - intros Hd. apply (f_equal (fun d => fst d !! "out.json")) in Hd.
    vm_compute in Hd. discriminate Hd.
  - exists vector, w6. split; [exact Hvec|]. split; [|exact Hopen].
    rewrite Hwrite. symmetry. apply surjective_pairing.
Defined.

Lemma extraction_is_deterministic_witness :
  fst (doExtract Demo.node Demo.hinted Demo.world)
  = fst (doExtract Demo.node' Demo.hinted Demo.world')
  /\ serialized Demo.node Demo.hinted Demo.world
     = serialized Demo.node' Demo.hinted Demo.world'
  /\ (fst (doExtract Demo.node Demo.hinted Demo.world) = Done tt ->
      exists doc,
        serialized Demo.node Demo.hinted Demo.world = Some doc
        /\ holds_document Demo.hinted Demo.world
             (snd (doExtract Demo.node Demo.hinted Demo.world)) doc
        /\ holds_document Demo.hinted Demo.world'
             (snd (doExtract Demo.node' Demo.hinted Demo.world')) doc).
Proof.
  exact (extraction_is_deterministic Demo.node Demo.node' Demo.hinted Demo.world
           Demo.world' demo_agree).
Defined.

(** * More on the selector *)

Section SelectorScan.

Variable Cid_of : Message -> Cid.

(** The selector finds the target exactly when an entry of the list is
    listed under its identity. *)
Theorem selector_found_iff mode target msgs :
  snd (fst (findMsgAndPrecursors Cid_of mode target msgs)) = true
  <-> exists e, e ∈ msgs /\ am_Cid e = Cid_of target.
Proof.
  destruct (findMsgAndPrecursors_cases Cid_of mode target msgs)
    as [[Habs Hrun]|(k & e & Hk & He & Hrun)]; rewrite Hrun; simpl.
  - split; [discriminate|]. intros (e & Hin & He).
    unfold target_absent in Habs. rewrite Forall_forall in Habs.
    destruct (Habs e Hin He).
  - split; [intros _|reflexivity]. exists e. split; [|exact He].
    eapply list_elem_of_lookup_2, Hk.
Qed.

Lemma range_ignores_suffix mode target e after before : forall related,
  am_Cid e = Cid_of target ->
  findMsgAndPrecursors_range Cid_of mode target (before ++ e :: after) related
  = findMsgAndPrecursors_range Cid_of mode target (before ++ [e]) related.
Proof.
  induction before as [|x before IH]; intros related He; simpl app.
  - rewrite !range_cons. cbv zeta. rewrite He, String.eqb_refl. reflexivity.
  - rewrite !range_cons. cbv zeta.
    destruct (String.eqb (am_Cid x) (Cid_of target)); [reflexivity|].
    apply IH, He.
Qed.

(** The scan ends at the target: the entries listed after it change
    nothing of the result. *)
Theorem selector_ignores_suffix mode target before e after :
  am_Cid e = Cid_of target ->
  findMsgAndPrecursors Cid_of mode target (before ++ e :: after)
  = findMsgAndPrecursors Cid_of mode target (before ++ [e]).
Proof. intros He. apply range_ignores_suffix, He. Qed.

Lemma kept_sublist mode target l : kept mode target l `sublist_of` am_Message <$> l.
Proof. unfold kept. apply fmap_sublist, sublist_filter. Qed.

(** Whatever the mode, the messages returned are messages of the list, in
    the order of the list, each at most as often as it is listed; under
    ['sender'] they are all from the sender of the target. *)
Theorem selector_result_sublist mode target msgs :
  fst (fst (findMsgAndPrecursors Cid_of mode target msgs)) `sublist_of` am_Message <$> msgs
  /\ (mode = PrecursorSelectSender ->
      Forall (fun m => msg_From m = msg_From target)
        (fst (fst (findMsgAndPrecursors Cid_of mode target msgs)))).
Proof.
  assert (Hsender : forall l, Forall (fun m => msg_From m = msg_From target)
                                (kept PrecursorSelectSender target l)).
  { intros l. rewrite kept_sender, Forall_fmap. apply Forall_forall.
    intros x [Hx _]%list_elem_of_filter. exact Hx. }
  destruct (findMsgAndPrecursors_cases Cid_of mode target msgs)
    as [[Habs Hrun]|(k & e & Hk & He & Hrun)]; rewrite Hrun; simpl.
  - split; [apply kept_sublist|]. intros ->. apply Hsender.
  - split; [|intros ->; apply Hsender].
    etransitivity; [apply kept_sublist|]. apply fmap_sublist, sublist_take.
Qed.

End SelectorScan.

Lemma selector_ignores_suffix_witness :
  findMsgAndPrecursors Demo.Cid_of "sender" Demo.msg3 Demo.msgs
  = findMsgAndPrecursors Demo.Cid_of "sender" Demo.msg3
      (Demo.entry <$> [Demo.msg0; Demo.msg1; Demo.msg2; Demo.msg3]).
Proof.
  change Demo.msgs
    with ((Demo.entry <$> [Demo.msg0; Demo.msg1; Demo.msg2])
          ++ Demo.entry Demo.msg3 :: [Demo.entry Demo.msg4]).
  change (Demo.entry <$> [Demo.msg0; Demo.msg1; Demo.msg2; Demo.msg3])
    with ((Demo.entry <$> [Demo.msg0; Demo.msg1; Demo.msg2]) ++ [Demo.entry Demo.msg3]).
  apply selector_ignores_suffix. reflexivity.
Defined.

(** * More on the pipeline *)

Section PipelineEdges.

Context {Store : Type} (env : Env Store).

(** Under a mode other than ['all'] and ['sender'] the selector finds the
    target with nothing selected, and the split [related[:len(related)-1]]
    of the caller is out of range: a run that lists the target panics. *)
Theorem unknown_mode_panics opts w rs w1 :
  resolveStage env opts w = (Done rs, w1) ->
  opt_precursor opts <> PrecursorSelectAll ->
  opt_precursor opts <> PrecursorSelectSender ->
  (exists e, e ∈ rs_msgs rs /\ am_Cid e = msg_Cid env (rs_msg rs)) ->
  findMsgAndPrecursors (msg_Cid env) (opt_precursor opts) (rs_msg rs) (rs_msgs rs)
  = ([], true, None)
  /\ doExtract env opts w = (Panic "slice bounds out of range", w1).
Proof.
  intros Hres Hall Hsender Hlisted.
  apply (selector_found_iff (msg_Cid env) (opt_precursor opts)) in Hlisted.
  destruct (selector_error_is_nil (msg_Cid env) (opt_precursor opts) (rs_msg rs) (rs_msgs rs))
    as (related & found & Hrun & Hnil).
  rewrite Hrun in Hlisted. simpl in Hlisted. subst found.
  rewrite (Hnil Hall Hsender) in Hrun. split; [exact Hrun|].
  unfold doExtract, bind at 1 2. rewrite Hres.
  unfold selectStage. rewrite Hrun. reflexivity.
Qed.

(** With a block hint the resolver never searches the chain for the
    message; without one it never fetches a block nor looks a tipset up by
    height. This holds however the resolution ends. *)
Theorem hint_avoids_chain_search mcid block w r w' :
  resolveFromChain env mcid block w = (r, w') ->
  (block <> "" ->
   List.filter is_search (w_trace w') = List.filter is_search (w_trace w))
  /\ (block = "" ->
      List.filter is_hinted (w_trace w') = List.filter is_hinted (w_trace w)).
Proof.
  intros Hrun. split; intros Hblock; revert w r w' Hrun.
  - apply String.eqb_neq in Hblock.
    change (preserves (fun w : World Store => List.filter is_search (w_trace w))
              (resolveFromChain env mcid block)).
    unfold resolveFromChain. rewrite Hblock. frame.
  - subst block.
    change (preserves (fun w : World Store => List.filter is_hinted (w_trace w))
              (resolveFromChain env mcid "")).
    unfold resolveFromChain, fetchThisAndPrevTipset. simpl. frame.
Qed.

(** A message CID that does not decode ends the run with the decoding
    error before anything is looked up or logged. *)
Theorem invalid_cid_stops_at_once opts w e :
  cid_Decode env (opt_cid opts) = Err e ->
  doExtract env opts w = (Fail e, w).
Proof.
  intros Hcid. unfold doExtract, resolveStage, bind, liftR. rewrite Hcid. reflexivity.
Qed.

End PipelineEdges.

Section PipelineResults.

Context {Store : Type} (env : Env Store).

(** The stages of a run, as far as the run gets: the stages up to the
    execution of the target, then the receipt check and the assembly. *)
Lemma vectorStages_inv opts w vector w6 :
  vectorStages env opts w = (Done vector, w6) ->
  exists rs rp ex w3 w4 rc w5,
    executionStages env opts w = (Done (rs, rp, ex), w4)
    /\ executeTarget env opts rs rp w3 = (Done ex, w4)
    /\ verifyReceipt env rs ex w4 = (Done rc, w5)
    /\ assembleVector env opts rs rp ex w5 = (Done vector, w6).
Proof.
  unfold vectorStages, executionStages. unfold bind, ret.
  destruct (resolveStage env opts w) as [[rs|e|p] w1]; [|discriminate ..].
  destruct (selectStage env opts rs w1) as [[precursors|e|p] w2]; [|discriminate ..].
  destruct (replayStage env rs precursors w2) as [[rp|e|p] w3]; [|discriminate ..].
  destruct (executeTarget env opts rs rp w3) as [[ex|e|p] w4] eqn:Hex; [|discriminate ..].
  destruct (verifyReceipt env rs ex w4) as [[rc|e|p] w5] eqn:Hver; [|discriminate ..].
  intros Hasm. exists rs, rp, ex, w3, w4, rc, w5. repeat split; assumption.
Qed.

Lemma doExtract_success_inv opts w wf :
  doExtract env opts w = (Done tt, wf) ->
  exists vector w6,
    vectorStages env opts w = (Done vector, w6)
    /\ writeVector env opts vector w6 = (Done tt, wf).
Proof.
  rewrite doExtract_vectorStages. unfold bind.
  destruct (vectorStages env opts w) as [[vector|e|p] w6]; [|discriminate ..].
  intros Hwrite. exists vector, w6. split; [reflexivity | exact Hwrite].
Qed.

(** A retention strategy other than ['accessed-cids'] and
    ['accessed-actors'] is refused when the strategy is reached, after the
    replay: the run never succeeds and never touches the destination. *)
Theorem unknown_retention_never_succeeds opts w out wf :
  opt_retain opts <> "accessed-cids" ->
  opt_retain opts <> "accessed-actors" ->
  doExtract env opts w = (out, wf) ->
  out <> Done tt
  /\ dest wf = dest w
  /\ forall rs rp w3,
       fst (executeTarget env opts rs rp w3)
       = Fail ("unknown state retention option: " +:+ opt_retain opts).
Proof.
  intros Hcids Hactors Hrun.
  apply String.eqb_neq in Hcids, Hactors.
  assert (Hstrategy : forall rs rp w3,
    fst (executeTarget env opts rs rp w3)
    = Fail ("unknown state retention option: " +:+ opt_retain opts)).
  { intros rs rp w3. unfold executeTarget. run_unfold. rewrite Hcids, Hactors. reflexivity. }
  assert (Hfails : forall vector w6, vectorStages env opts w <> (Done vector, w6)).
  { intros vector w6 Hvec.
    destruct (vectorStages_inv _ _ _ _ Hvec) as (rs & rp & ex & w3 & w4 & _ & _ & _ & Hex & _).
    specialize (Hstrategy rs rp w3). rewrite Hex in Hstrategy. discriminate. }
  rewrite doExtract_vectorStages in Hrun. unfold bind in Hrun.
  destruct (vectorStages env opts w) as [[vector|e|p] w6] eqn:Hvec;
    [destruct (Hfails vector w6 eq_refl)| |];
    injection Hrun as <- <-;
    (split; [discriminate|]);
    (split; [exact (preserves_dest_vectorStages env opts _ _ _ Hvec) | exact Hstrategy]).
Qed.

Lemma quiet_not_execution ev : is_quiet ev = true -> is_execution ev = false.
Proof. destruct ev; simpl; congruence. Qed.

Lemma serialization_not_execution ev : is_serialization ev = true -> is_execution ev = false.
Proof. destruct ev; simpl; congruence. Qed.

(** The last execution of a strategy that succeeds is that of the target,
    on the preroot and with the result the strategy returns. *)
Lemma executeTarget_last_execution opts rs rp w ex w' :
  executeTarget env opts rs rp w = (Done ex, w') ->
  last (List.filter is_execution (w_trace w'))
  = Some (EvExecuteMessage
            (precursorParams rs (rp_basefee rp) (ex_preroot ex) (rs_msg rs))
            (Ok (ex_applyret ex, ex_postroot ex))).
Proof.
  unfold executeTarget. run_unfold. intros Hrun.
  run_cases; rewrite ?List.filter_app; simpl; rewrite ?app_nil_r; apply last_snoc.
Qed.

Lemma assembleVector_fields opts rs rp ex w vector w' :
  assembleVector env opts rs rp ex w = (Done vector, w') ->
  exists msgBytes,
    msg_Serialize env (rs_msg rs) = Ok msgBytes
    /\ ApplyMessages vector = [msgBytes]
    /\ Pre vector = mkPreconditions (ts_Height (rs_execTs rs))
                      (FilCirculating (rs_circSupplyDetail rs)) (rp_basefee rp)
                      (ex_preroot ex)
    /\ Post vector = mkPostconditions (ex_postroot ex) [localReceipt (ex_applyret ex)]
    /\ ID (Meta vector) = opt_id opts.
Proof.
  unfold assembleVector. run_unfold. intros Hrun.
  destruct (msg_Serialize env (rs_msg rs)) as [msgBytes|e]; [|discriminate].
  simpl in Hrun. run_cases; exists msgBytes; repeat split.
Qed.

(** A check that passes saw no receipt, or a receipt equal to the local
    result in its three fields. *)
Lemma verifyReceipt_passed rs ex w rc w' :
  verifyReceipt env rs ex w = (Done rc, w') ->
  StateGetReceipt env (rs_mcid rs) (ts_Key (rs_execTs rs)) = Ok None
  \/ exists rec,
       StateGetReceipt env (rs_mcid rs) (ts_Key (rs_execTs rs)) = Ok (Some rec)
       /\ rc_ExitCode rec = ar_ExitCode (ex_applyret ex)
       /\ rc_Return rec = ar_Return (ex_applyret ex)
       /\ rc_GasUsed rec = ar_GasUsed (ex_applyret ex).
Proof.
  unfold verifyReceipt. run_unfold. intros Hrun.
  destruct (StateGetReceipt env (rs_mcid rs) (ts_Key (rs_execTs rs))) as [[rec|]|e];
    simpl in Hrun; [|left; reflexivity|discriminate].
  right. exists rec. split; [reflexivity|].
  destruct (Failed _) eqn:Hfailed; simpl in Hrun; [discriminate|].
  assert (Hsame : ~ receipt_differs rec (ex_applyret ex)).
  { intros Hd%AssertMsgResult_differs. congruence. }
  unfold receipt_differs in Hsame.
  destruct (Z.eq_dec (rc_ExitCode rec) (ar_ExitCode (ex_applyret ex))); [|tauto].
  destruct (Z.eq_dec (rc_GasUsed rec) (ar_GasUsed (ex_applyret ex))); [|tauto].
  destruct (bytes_Equal (rc_Return rec) (ar_Return (ex_applyret ex))) eqn:Hret.
  - apply bytes_Equal_eq in Hret. tauto.
  - exfalso. apply Hsame. right; left. intros Heq%bytes_Equal_eq. congruence.
Qed.

(** The vector of a run that succeeds records the last local execution: the
    message it carries is the one executed, its preconditions are the
    parameters of that execution, and its postconditions are the root and
    the receipt that execution returned. *)
Theorem vector_records_execution opts w wf :
  doExtract env opts w = (Done tt, wf) ->
  exists vector w6 p applyret msgBytes,
    vectorStages env opts w = (Done vector, w6)
    /\ last (List.filter is_execution (w_trace wf))
       = Some (EvExecuteMessage p (Ok (applyret, post_StateTree (Post vector))))
    /\ Pre vector
       = mkPreconditions (emp_Epoch p) (emp_CircSupply p) (emp_BaseFee p) (emp_Preroot p)
    /\ msg_Serialize env (emp_Message p) = Ok msgBytes
    /\ ApplyMessages vector = [msgBytes]
    /\ post_Receipts (Post vector) = [localReceipt applyret].
Proof.
  intros Hrun.
  destruct (doExtract_success_inv _ _ _ Hrun) as (vector & w6 & Hvec & Hwrite).
  destruct (vectorStages_inv _ _ _ _ Hvec)
    as (rs & rp & ex & w3 & w4 & rc & w5 & Hexec & Hex & Hver & Hasm).
  destruct (assembleVector_fields _ _ _ _ _ _ _ Hasm)
    as (msgBytes & Hser & Hmsgs & Hpre & Hpost & _).
  exists vector, w6, (precursorParams rs (rp_basefee rp) (ex_preroot ex) (rs_msg rs)),
    (ex_applyret ex), msgBytes.
  split; [exact Hvec|]. rewrite Hpost, Hpre. simpl.
  split; [|repeat split; assumption].
  rewrite <- (executeTarget_last_execution _ _ _ _ _ _ Hex). f_equal.
  rewrite (doExtract_after_execution env _ _ _ _ _ _ Hexec) in Hrun.
  exact (preserves_after_execution env is_execution opts rs rp ex
           quiet_not_execution serialization_not_execution _ _ _ Hrun).
Qed.

(** The receipt in the vector of a run that succeeds is never at odds with
    the chain: the node had no receipt for the message, or its receipt has
    the exit code, the return value and the gas used of the vector's. *)
Theorem vector_agrees_with_chain opts w wf :
  doExtract env opts w = (Done tt, wf) ->
  exists vector w6 mcid execTs receipt,
    vectorStages env opts w = (Done vector, w6)
    /\ cid_Decode env (opt_cid opts) = Ok mcid
    /\ post_Receipts (Post vector) = [receipt]
    /\ (StateGetReceipt env mcid (ts_Key execTs) = Ok None
        \/ exists rec,
             StateGetReceipt env mcid (ts_Key execTs) = Ok (Some rec)
             /\ rc_ExitCode rec = ExitCode receipt
             /\ rc_Return rec = ReturnValue receipt
             /\ rc_GasUsed rec = GasUsed receipt).
Proof.
  intros Hrun.
  destruct (doExtract_success_inv _ _ _ Hrun) as (vector & w6 & Hvec & Hwrite).
  destruct (vectorStages_inv _ _ _ _ Hvec)
    as (rs & rp & ex & w3 & w4 & rc & w5 & Hexec & Hex & Hver & Hasm).
  destruct (assembleVector_fields _ _ _ _ _ _ _ Hasm) as (msgBytes & _ & _ & _ & Hpost & _).
  exists vector, w6, (rs_mcid rs), (rs_execTs rs), (localReceipt (ex_applyret ex)).
  split; [exact Hvec|]. split.
  - unfold executionStages, bind in Hexec.
    destruct (resolveStage env opts w) as [[rs'|e|p] w1] eqn:Hres; [|discriminate ..].
    destruct (selectStage env opts rs' w1) as [[precursors|e|p] w2]; [|discriminate ..].
    destruct (replayStage env rs' precursors w2) as [[rp'|e|p] w3']; [|discriminate ..].
    destruct (executeTarget env opts rs' rp' w3') as [[ex'|e|p] w4']; [|discriminate ..].
    injection Hexec as -> -> -> ->. exact (resolveStage_mcid env _ _ _ _ Hres).
  - split; [rewrite Hpost; reflexivity|]. exact (verifyReceipt_passed _ _ _ _ _ Hver).
Qed.

End PipelineResults.

Section PipelineOutput.

Context {Store : Type} (env : Env Store).

(** A run that succeeds leaves the whole document in its destination and
    changes nothing else: the standard output grows by the document, or the
    file holds the document and nothing of what it held before. *)
Theorem success_replaces_destination opts w wf :
  doExtract env opts w = (Done tt, wf) ->
  exists vector w6 doc,
    vectorStages env opts w = (Done vector, w6)
    /\ json_Encode env vector = Ok doc
    /\ (opt_file opts = "" ->
        w_stdout wf = w_stdout w ++ doc /\ w_files wf = w_files w)
    /\ (opt_file opts <> "" ->
        w_files wf = <[opt_file opts := doc]> (w_files w) /\ w_stdout wf = w_stdout w).
Proof.
  intros Hrun.
  destruct (doExtract_success_inv env _ _ _ Hrun) as (vector & w6 & Hvec & Hwrite).
  pose proof (preserves_dest_vectorStages env opts _ _ _ Hvec) as Hd.
  injection Hd as Hfiles Hstdout.
  exists vector, w6. revert Hwrite.
  unfold writeVector, os_Create_file, Encode, defer, dest_Write. run_unfold.
  destruct (String.eqb_spec (opt_file opts) "") as [Hfile|Hfile]; simpl.
  - destruct (json_Encode env vector) as [doc|e]; simpl; [|discriminate].
    destruct (os_Write env Stdout doc) as [n [e|]]; [discriminate|].
    destruct (Nat.ltb_spec n (length doc)); [discriminate|].
    intros [= <-]. exists doc. split; [exact Hvec|]. split; [reflexivity|].
    split; [intros _|contradiction]. simpl.
    rewrite take_ge by lia. rewrite Hstdout, Hfiles. split; reflexivity.
  - destruct (os_MkdirAll env _) as [[]|e]; simpl; [|discriminate].
    destruct (os_Create env _) as [[]|e]; simpl; [|discriminate].
    destruct (json_Encode env vector) as [doc|e]; simpl; [|discriminate].
    destruct (os_Write env (File (opt_file opts)) doc) as [n [e|]]; [discriminate|].
    destruct (Nat.ltb_spec n (length doc)); [discriminate|].
    intros [= <-]. exists doc. split; [exact Hvec|]. split; [reflexivity|].
    split; [contradiction|intros _]. simpl.
    rewrite take_ge by lia. rewrite lookup_insert_eq. simpl.
    rewrite insert_insert_eq, Hfiles, Hstdout. split; reflexivity.
Qed.

(** Once the file is created, the line that says the vector was written to
    it is logged when the function returns, also when the encoding or the
    write has failed. *)
Theorem written_is_logged_even_on_failure opts vector w out w' :
  opt_file opts <> "" ->
  os_MkdirAll env (filepath_Dir env (opt_file opts)) = Ok tt ->
  os_Create env (opt_file opts) = Ok tt ->
  writeVector env opts vector w = (out, w') ->
  last (w_trace w') = Some (EvLog "wrote test vector to file: %s").
Proof.
  intros Hfile Hmkdir Hcreate. apply String.eqb_neq in Hfile.
  unfold writeVector, os_Create_file, Encode, defer, dest_Write. run_unfold.
  rewrite Hfile, Hmkdir. simpl. rewrite Hcreate. simpl.
  destruct (json_Encode env vector) as [doc|e]; simpl.
  - destruct (os_Write env (File (opt_file opts)) doc) as [n err].
    intros [= <- <-]. simpl. apply last_snoc.
  - intros [= <- <-]. simpl. apply last_snoc.
Qed.

(** Without [--out] no run creates or changes a file, however it ends. *)
Theorem stdout_run_leaves_files opts w out wf :
  opt_file opts = "" ->
  doExtract env opts w = (out, wf) ->
  w_files wf = w_files w.
Proof.
  intros Hfile. rewrite doExtract_vectorStages. unfold bind.
  destruct (vectorStages env opts w) as [[vector|e|p] w6] eqn:Hvec;
    pose proof (preserves_dest_vectorStages env opts _ _ _ Hvec) as Hd;
    injection Hd as Hfiles _;
    [|intros [= <- <-]; exact Hfiles ..].
  unfold writeVector, Encode, dest_Write. run_unfold. rewrite Hfile. simpl.
  destruct (json_Encode env vector) as [doc|e]; simpl.
  - destruct (os_Write env Stdout doc) as [n err]. intros [= <- <-]. exact Hfiles.
  - intros [= <- <-]. exact Hfiles.
Qed.

(** The [--class] option is never read: a run is the same under any class. *)
Theorem class_is_ignored class opts w :
  doExtract env (with_class class opts) w = doExtract env opts w.
Proof. reflexivity. Qed.

End PipelineOutput.

(** * More runs on the small chain *)

Lemma unknown_mode_panics_witness :
  findMsgAndPrecursors (msg_Cid Demo.node) "every" Demo.msg3 Demo.msgs = ([], true, None)
  /\ fst (doExtract Demo.node Demo.everyMode Demo.world) = Panic "slice bounds out of range".
Proof.
  destruct (unknown_mode_panics Demo.node Demo.everyMode Demo.world Demo.resolved
              (snd (resolveStage Demo.node Demo.everyMode Demo.world)))
    as [Hsel Hrun].
  - vm_compute. reflexivity.
  - discriminate.
  - discriminate.
  - exists (Demo.entry Demo.msg3). split; [|reflexivity].
    apply (list_elem_of_lookup_2 _ 3). reflexivity.
  - split; [exact Hsel|]. rewrite Hrun. reflexivity.
Defined.

Lemma hint_avoids_chain_search_witness :
  List.filter is_search
    (w_trace (snd (resolveFromChain Demo.node (Demo.Cid_of Demo.msg3) "blk10" Demo.world)))
  = List.filter is_search (w_trace Demo.world)
  /\ List.filter is_hinted
       (w_trace (snd (resolveFromChain Demo.node (Demo.Cid_of Demo.msg3) "" Demo.world)))
     = List.filter is_hinted (w_trace Demo.world).
Proof.
  split.
  - apply (hint_avoids_chain_search Demo.node (Demo.Cid_of Demo.msg3) "blk10" Demo.world
             (fst (resolveFromChain Demo.node (Demo.Cid_of Demo.msg3) "blk10" Demo.world))).
    + apply surjective_pairing.
    + discriminate.
  - apply (hint_avoids_chain_search Demo.node (Demo.Cid_of Demo.msg3) "" Demo.world
             (fst (resolveFromChain Demo.node (Demo.Cid_of Demo.msg3) "" Demo.world))).
    + apply surjective_pairing.
    + reflexivity.
Defined.

Lemma invalid_cid_stops_at_once_witness :
  doExtract Demo.node (mkExtractOpts "demo" "" "message" "" "" "accessed-cids" "sender")
    Demo.world
  = (Fail "invalid cid", Demo.world).
Proof.
  apply (invalid_cid_stops_at_once Demo.node). reflexivity.
Defined.

Lemma unknown_retention_never_succeeds_witness :
  fst (doExtract Demo.node Demo.noStrategy Demo.world) <> Done tt
  /\ dest (snd (doExtract Demo.node Demo.noStrategy Demo.world)) = dest Demo.world
  /\ forall rs rp w3,
       fst (executeTarget Demo.node Demo.noStrategy rs rp w3)
       = Fail ("unknown state retention option: " +:+ opt_retain Demo.noStrategy).
Proof.
  apply (unknown_retention_never_succeeds Demo.node Demo.noStrategy Demo.world).
  - discriminate.
  - discriminate.
  - apply surjective_pairing.
Defined.

Lemma demo_run_succeeds : doExtract Demo.node Demo.hinted Demo.world
  = (Done tt, snd (doExtract Demo.node Demo.hinted Demo.world)).
Proof. vm_compute. reflexivity. Defined.

Lemma vector_records_execution_witness :
  exists vector w6 p applyret msgBytes,
    vectorStages Demo.node Demo.hinted Demo.world = (Done vector, w6)
    /\ last (List.filter is_execution
               (w_trace (snd (doExtract Demo.node Demo.hinted Demo.world))))
       = Some (EvExecuteMessage p (Ok (applyret, post_StateTree (Post vector))))
    /\ Pre vector
       = mkPreconditions (emp_Epoch p) (emp_CircSupply p) (emp_BaseFee p) (emp_Preroot p)
    /\ msg_Serialize Demo.node (emp_Message p) = Ok msgBytes
    /\ ApplyMessages vector = [msgBytes]
    /\ post_Receipts (Post vector) = [localReceipt applyret].
Proof.
  exact (vector_records_execution Demo.node Demo.hinted Demo.world _ demo_run_succeeds).
Defined.

Lemma vector_agrees_with_chain_witness :
  exists vector w6 mcid execTs receipt,
    vectorStages Demo.node Demo.hinted Demo.world = (Done vector, w6)
    /\ cid_Decode Demo.node (opt_cid Demo.hinted) = Ok mcid
    /\ post_Receipts (Post vector) = [receipt]
    /\ (StateGetReceipt Demo.node mcid (ts_Key execTs) = Ok None
        \/ exists rec,
             StateGetReceipt Demo.node mcid (ts_Key execTs) = Ok (Some rec)
             /\ rc_ExitCode rec = ExitCode receipt
             /\ rc_Return rec = ReturnValue receipt
             /\ rc_GasUsed rec = GasUsed receipt).
Proof.
  exact (vector_agrees_with_chain Demo.node Demo.hinted Demo.world _ demo_run_succeeds).
Defined.

Lemma success_replaces_destination_witness :
  exists vector w6 doc,
    vectorStages Demo.node Demo.hinted Demo.world = (Done vector, w6)
    /\ json_Encode Demo.node vector = Ok doc
    /\ (opt_file Demo.hinted = "" ->
        w_stdout (snd (doExtract Demo.node Demo.hinted Demo.world))
        = w_stdout Demo.world ++ doc
        /\ w_files (snd (doExtract Demo.node Demo.hinted Demo.world)) = w_files Demo.world)
    /\ (opt_file Demo.hinted <> "" ->
        w_files (snd (doExtract Demo.node Demo.hinted Demo.world))
        = <[opt_file Demo.hinted := doc]> (w_files Demo.world)
        /\ w_stdout (snd (doExtract Demo.node Demo.hinted Demo.world))
           = w_stdout Demo.world).
Proof.
  exact (success_replaces_destination Demo.node Demo.hinted Demo.world _ demo_run_succeeds).
Defined.

Lemma written_is_logged_even_on_failure_witness :
  fst (doExtract Demo.nodeNoJSON Demo.hinted Demo.world) = Fail "json: unsupported value"
  /\ last (w_trace (snd (doExtract Demo.nodeNoJSON Demo.hinted Demo.world)))
     = Some (EvLog "wrote test vector to file: %s").
Proof.
  split; [vm_compute; reflexivity|].
  destruct (vectorStages Demo.nodeNoJSON Demo.hinted Demo.world) as [r w6] eqn:Hvec.
  assert (Hdone : exists vector, r = Done vector).
  { assert (H : fst (vectorStages Demo.nodeNoJSON Demo.hinted Demo.world) = r)
      by (rewrite Hvec; reflexivity).
    vm_compute in H. rewrite <- H. eexists. reflexivity. }
  destruct Hdone as [vector ->].
  apply (written_is_logged_even_on_failure Demo.nodeNoJSON Demo.hinted vector w6
           (fst (doExtract Demo.nodeNoJSON Demo.hinted Demo.world))).
  - discriminate.
  - reflexivity.
  - reflexivity.
  - rewrite doExtract_vectorStages. unfold bind. rewrite Hvec.
    apply surjective_pairing.
Defined.

Lemma stdout_run_leaves_files_witness :
  w_files (snd (doExtract Demo.node Demo.toStdout Demo.world)) = w_files Demo.world.
Proof.
  apply (stdout_run_leaves_files Demo.node Demo.toStdout Demo.world
           (fst (doExtract Demo.node Demo.toStdout Demo.world))).
  - reflexivity.
  - apply surjective_pairing.
Defined.
